(** * Tag-a-widget: the tag registry and the node-tag synchronisation engine

    A shallow embedding of the TypeScript sources of the tagger plugin:

    - [Mvp]: the single-file controller [fig_jam_tagger_plugin_mvp.ts]
      (registry blob and per-node tag blobs kept in plugin data);
    - [Sandbox]: the controller of the full variant (the plugin code that runs
      in the Figma sandbox and stores what the view sends it);
    - [View]: the React view ([TagManager], [CompactTagManager],
      [SelectionTagger], [PluginApp]) and the export codec of
      [plugin-storage.ts].

    - [Blob]: the readers of the stored blobs, [JSON.parse] being a
      parameter; [MvpUi]: the rename button of the MVP view; [Csv]: a reader
      of quoted CSV fields, to say what recoverable means.

    JavaScript strings are modelled by [string] (ordered by character code, as
    [Array.prototype.sort] without a comparator orders them), plain objects
    used as dictionaries by [gmap string _], arrays by [list], and a [Set] by
    the list of its elements in insertion order.  A character is a code unit
    below 256.  A dictionary holds the own properties of the object; what
    the object inherits from [Object.prototype] shows in [JS.truthy] and
    [JS.assign].  The state of the MVP holds the nodes of the current page,
    which its loops visit, and the tag blobs of all nodes of the document. *)

From Stdlib Require Import Ascii String.
From stdpp Require Import gmap strings list sorting pretty.

Local Open Scope string_scope.
Local Open Scope list_scope.

(** ** Arrays, sets and strings of the host language *)

Module JS.

(** [new Set(xs)]: elements in order of first insertion. *)
Definition Set_add (s : list string) (x : string) : list string :=
  if bool_decide (x ∈ s) then s else (s ++ [x])%list.

Definition new_Set (xs : list string) : list string := foldl Set_add [] xs.

(** [s.delete(x)]: the set without [x], and whether [x] was a member. *)
Definition Set_delete (s : list string) (x : string) : list string * bool :=
  (filter (λ y, y ≠ x) s, bool_decide (x ∈ s)).

(** [xs.sort()] with the default comparator. *)
Definition sort (xs : list string) : list string := merge_sort String.le xs.

(** [xs.includes(x)] *)
Definition includes (xs : list string) (x : string) : bool := bool_decide (x ∈ xs).

Definition quote : string := String (Ascii.ascii_of_nat 34) EmptyString.
Definition newline : string := String (Ascii.ascii_of_nat 10) EmptyString.

(** [xs.join(sep)] *)
Fixpoint join (sep : string) (xs : list string) : string :=
  match xs with
  | [] => EmptyString
  | [x] => x
  | x :: rest => x +:+ sep +:+ join sep rest
  end.

(** [s.replaceAll] of the double quote character by two of them. *)
Definition dquote : ascii := Ascii.ascii_of_nat 34.

Fixpoint double_quotes (s : string) : string :=
  match s with
  | EmptyString => EmptyString
  | String c rest =>
      if Ascii.eqb c dquote then String dquote (String dquote (double_quotes rest))
      else String c (double_quotes rest)
  end.

(** [s.trim()]: the white space and line terminators below 256 are the
    space, the characters 9 to 13 and the no-break space. *)
Definition is_white (c : ascii) : bool :=
  let n := Ascii.nat_of_ascii c in
  (n =? 32)%nat || ((9 <=? n)%nat && (n <=? 13)%nat) || (n =? 160)%nat.

Fixpoint trim_start (s : string) : string :=
  match s with
  | EmptyString => EmptyString
  | String c rest => if is_white c then trim_start rest else s
  end.

Definition trim (s : string) : string :=
  String.rev (trim_start (String.rev (trim_start s))).

(** [s.split(',')] *)
Fixpoint split_go (cur : string) (s : string) : list string :=
  match s with
  | EmptyString => [String.rev cur]
  | String c rest =>
      if Ascii.eqb c "," then String.rev cur :: split_go EmptyString rest
      else split_go (String c cur) rest
  end.

Definition split_comma (s : string) : list string := split_go EmptyString s.

(** [raw.split(',').map(t => t.trim()).filter(Boolean)] *)
Definition tag_list_of_input (raw : string) : list string :=
  filter (λ t, t ≠ EmptyString) (trim <$> split_comma raw).

(** The properties every plain object inherits from [Object.prototype]:
    eleven functions and the accessor [__proto__]. *)
Definition inherited (k : string) : bool :=
  bool_decide (k ∈ ["constructor"; "toString"; "toLocaleString"; "valueOf";
                    "hasOwnProperty"; "isPrototypeOf"; "propertyIsEnumerable";
                    "__proto__"; "__defineGetter__"; "__defineSetter__";
                    "__lookupGetter__"; "__lookupSetter__"]).

(** [o[k]] read as a condition, the own properties of [o] holding objects:
    an own property is truthy, and so is what [o] inherits under [k]; any
    other name reads as [undefined]. *)
Definition truthy {A} (o : gmap string A) (k : string) : bool :=
  bool_decide (is_Some (o !! k)) || inherited k.

(** [o[k] = v].  Under the key [__proto__] an object without own property
    of that name runs the inherited setter, which replaces the prototype and
    adds no own property; the names the new prototype brings are the fields
    of [v], and no loop of the program has an own effect that depends on
    them. *)
Definition assign {A} (o : gmap string A) (k : string) (v : A) : gmap string A :=
  if bool_decide (k = "__proto__" ∧ o !! k = None) then o else <[k := v]> o.

End JS.

(** ** The data model (types.ts and the type declarations of the MVP) *)

Abbreviation TagName := string.
Abbreviation NodeId := string.

Record TagMeta := mkTagMeta { color : option string; emoji : option string }.

Global Instance TagMeta_eq_dec : EqDecision TagMeta.
Proof. solve_decision. Defined.

(** The object literal [{}]. *)
Definition no_meta : TagMeta := mkTagMeta None None.

(** [{ ...a, ...b }]: the properties of [b] override those of [a].  Where
    an operand is read from a registry, [default no_meta (reg !! k)] is what
    it contributes: the own entry, and nothing when [reg[k]] is [undefined],
    an inherited function or the prototype, which have no enumerable own
    property. *)
Definition spread (a b : TagMeta) : TagMeta :=
  {| color := match color b with Some c => Some c | None => color a end;
     emoji := match emoji b with Some e => Some e | None => emoji a end |}.

Abbreviation TagRegistry := (gmap string TagMeta).


(** ** The MVP controller (fig_jam_tagger_plugin_mvp.ts, part 2: code.ts)

    The state is what the controller reaches through the [figma] global: the
    registry blob of the document, the nodes of the current page in the order
    [findAll] visits them, the tag blob of each node and the current
    selection.  Blobs are kept decoded: [pluginData st !! n = None] stands for
    a node without tag blob, which [getNodeTags] reads as the empty array. *)

Module Mvp.

Record Figma := mkFigma {
  registry : gmap string TagMeta;
  page : list NodeId;
  nodeName : gmap NodeId string;
  pluginData : gmap NodeId (list TagName);
  selection : list NodeId
}.

Definition getRegistry (st : Figma) : TagRegistry := registry st.

Definition setRegistry (reg : TagRegistry) (st : Figma) : Figma :=
  mkFigma reg (page st) (nodeName st) (pluginData st) (selection st).

Definition getNodeTags (st : Figma) (n : NodeId) : list TagName :=
  default [] (pluginData st !! n).

Definition setNodeTags (n : NodeId) (tags : list TagName) (st : Figma) : Figma :=
  mkFigma (registry st) (page st) (nodeName st)
          (<[n := JS.sort (JS.new_Set tags)]> (pluginData st)) (selection st).

Definition setSelection (sel : list NodeId) (st : Figma) : Figma :=
  mkFigma (registry st) (page st) (nodeName st) (pluginData st) sel.

(** [figma.currentPage.findAll(p)] *)
Definition findAll (p : NodeId → bool) (st : Figma) : list NodeId :=
  filter (λ n, p n) (page st).

Definition addTagsToSelection (tags : list TagName) (st : Figma) : Figma * nat :=
  let sel := selection st in
  if bool_decide (length sel = 0) then (st, 0)
  else
    foldl (λ '(st, updated) n,
             let current := getNodeTags st n in
             let next := JS.new_Set (current ++ tags)%list in
             (setNodeTags n next st, S updated))
          (st, 0) sel.

Definition removeTagsFromSelection (tags : list TagName) (st : Figma) : Figma * nat :=
  let sel := selection st in
  if bool_decide (length sel = 0) then (st, 0)
  else
    foldl (λ '(st, updated) n,
             let current := getNodeTags st n in
             let next := filter (λ t, negb (JS.includes tags t)) current in
             (setNodeTags n next st, S updated))
          (st, 0) sel.

Definition renameTagEverywhere (from to : TagName) (st : Figma) : Figma * nat :=
  let reg := getRegistry st in
  let st :=
    if JS.truthy reg from then
      let reg :=
        JS.assign reg to
          (spread (default no_meta (reg !! to)) (default no_meta (reg !! from))) in
      let reg := delete from reg in
      setRegistry reg st
    else st in
  let nodes := findAll (λ n, JS.includes (getNodeTags st n) from) st in
  let st :=
    foldl (λ st n,
             let tags := (λ t, if bool_decide (t = from) then to else t) <$> getNodeTags st n in
             setNodeTags n tags st)
          st nodes in
  (st, length nodes).

(** One turn of the metadata loop of [mergeTags]. *)
Definition foldMeta (into : TagName) (reg : TagRegistry) (f : TagName) : TagRegistry :=
  if JS.truthy reg f then
    delete f (JS.assign reg into
                (spread (default no_meta (reg !! into)) (default no_meta (reg !! f))))
  else reg.

(** The body of the node loop of [mergeTags]: the new tag set, and whether
    some tag of [fromList] was deleted from it. *)
Definition mergedTagSet (into : TagName) (fromList current : list TagName)
  : list TagName * bool :=
  let tags := JS.new_Set current in
  let '(tags, changed) :=
    foldl (λ '(tags, changed) f,
             let '(tags', was) := JS.Set_delete tags f in
             (tags', if was then true else changed))
          (tags, false) fromList in
  (JS.Set_add tags into, changed).

Definition mergeTags (into : TagName) (fromList : list TagName) (st : Figma) : Figma * nat :=
  let reg := foldl (foldMeta into) (getRegistry st) fromList in
  let st := setRegistry reg st in
  let nodes :=
    findAll (λ n, existsb (λ f, JS.includes (getNodeTags st n) f) fromList) st in
  let st :=
    foldl (λ st n,
             let '(tags, changed) := mergedTagSet into fromList (getNodeTags st n) in
             if changed then setNodeTags n tags st else st)
          st nodes in
  (st, length nodes).

Definition findByTag (tag : TagName) (st : Figma) : list NodeId :=
  findAll (λ n, JS.includes (getNodeTags st n) tag) st.

Definition exportCSV (st : Figma) : string :=
  let rows :=
    foldl (λ rows n,
             let t := getNodeTags st n in
             if bool_decide (length t = 0) then rows
             else
               let name := JS.double_quotes (default EmptyString (nodeName st !! n)) in
               (rows ++ [n +:+ "," +:+ JS.quote +:+ name +:+ JS.quote +:+ ","
                           +:+ JS.quote +:+ JS.join "|" t +:+ JS.quote])%list)
          ["nodeId,nodeName,tags"] (findAll (λ _, true) st) in
  JS.join JS.newline rows.

Definition ensureTagInRegistry (tag : TagName) (meta : option TagMeta) (st : Figma) : Figma :=
  let reg := getRegistry st in
  let reg := if negb (JS.truthy reg tag) then JS.assign reg tag no_meta else reg in
  let reg :=
    match meta with
    | Some m => JS.assign reg tag (spread (default no_meta (reg !! tag)) m)
    | None => reg
    end in
  setRegistry reg st.

(** The [delete-tag] case of [figma.ui.onmessage]. *)
Definition deleteTag (tag : TagName) (st : Figma) : Figma :=
  let reg := delete tag (getRegistry st) in
  let st := setRegistry reg st in
  let nodes := findAll (λ n, JS.includes (getNodeTags st n) tag) st in
  foldl (λ st n, setNodeTags n (filter (λ t, t ≠ tag) (getNodeTags st n)) st) st nodes.

(** Messages of the view, and what the controller answers. *)
Inductive Msg :=
| create_tag (tag : TagName) (meta : option TagMeta)
| delete_tag (tag : TagName)
| assign_tags_to_selection (tags : list TagName)
| remove_tags_from_selection (tags : list TagName)
| rename_tag (from to : TagName)
| merge_tags (into : TagName) (fromList : list TagName)
| filter_by_tag (tag : TagName)
| export_csv
| unknown_message.

Inductive Effect :=
| post_registry (reg : TagRegistry)
| notify_tagged (updated : nat)
| notify_removed (updated : nat)
| notify_renamed (count : nat)
| notify_merged (into : TagName) (count : nat)
| notify_no_nodes (tag : TagName)
| scroll_into_view (nodes : list NodeId)
| clipboard_write (csv : string)
| console_warn.

Definition onmessage (msg : Msg) (st : Figma) : Figma * list Effect :=
  match msg with
  | create_tag tag meta =>
      let st := ensureTagInRegistry tag meta st in
      (st, [post_registry (getRegistry st)])
  | delete_tag tag =>
      let st := deleteTag tag st in
      (st, [post_registry (getRegistry st)])
  | assign_tags_to_selection tags =>
      let '(st, updated) := addTagsToSelection tags st in
      (st, [notify_tagged updated])
  | remove_tags_from_selection tags =>
      let '(st, updated) := removeTagsFromSelection tags st in
      (st, [notify_removed updated])
  | rename_tag from to =>
      let '(st, count) := renameTagEverywhere from to st in
      (st, [notify_renamed count; post_registry (getRegistry st)])
  | merge_tags into fromList =>
      let '(st, count) := mergeTags into fromList st in
      (st, [notify_merged into count; post_registry (getRegistry st)])
  | filter_by_tag tag =>
      let nodes := findByTag tag st in
      if bool_decide (length nodes = 0) then (st, [notify_no_nodes tag])
      else (setSelection nodes st, [scroll_into_view nodes])
  | export_csv => (st, [clipboard_write (exportCSV st)])
  | unknown_message => (st, [console_warn])
  end.

End Mvp.

(** ** Reading the blobs

    [getPluginData] returns the empty string for a key that was never set.
    [JSON.parse] belongs to the host: it is a parameter, [None] standing for
    the [SyntaxError] it raises.  The parsed value is used as it is (the
    sources cast it without a check), hence the untyped [json]. *)

Local Unset Elimination Schemes.
Inductive json :=
| JNull
| JBool (b : bool)
| JNumber (literal : string)
| JString (s : string)
| JArray (items : list json)
| JObject (fields : list (string * json)).
Local Set Elimination Schemes.

Inductive Completion (A : Type) :=
| Returns (v : A)
| Throws_SyntaxError.
Arguments Returns {A} v.
Arguments Throws_SyntaxError {A}.

Module Blob.
Section Reading.
Variable JSON_parse : string → option json.

(** fig_jam_tagger_plugin_mvp.ts: [getRegistry], on the registry blob. *)
Definition mvp_getRegistry (raw : string) : Completion json :=
  if bool_decide (raw = EmptyString) then Returns (JObject [])
  else match JSON_parse raw with
       | Some v => Returns v
       | None => Returns (JObject [])     (* catch { return {} } *)
       end.

(** fig_jam_tagger_plugin_mvp.ts: [getNodeTags], on a node blob. *)
Definition mvp_getNodeTags (raw : string) : Completion json :=
  if bool_decide (raw = EmptyString) then Returns (JArray [])
  else match JSON_parse raw with
       | Some v => Returns v
       | None => Returns (JArray [])      (* catch { return [] } *)
       end.

(** The sandbox code of the full variant: [getTagRegistry]. *)
Definition getTagRegistry (registryData : string) : Completion json :=
  if bool_decide (registryData = EmptyString) then Returns (JObject [])
  else match JSON_parse registryData with
       | Some v => Returns v
       | None => Throws_SyntaxError       (* no handler around JSON.parse *)
       end.

(** The sandbox code of the full variant: [getNodeTags]. *)
Definition getNodeTags (tagsData : string) : Completion json :=
  if bool_decide (tagsData = EmptyString) then Returns (JArray [])
  else match JSON_parse tagsData with
       | Some v => Returns v
       | None => Throws_SyntaxError
       end.

(** lib/storage.ts: [StorageManager.getTagRegistry], [getItem] giving
    [None] for an absent key. *)
Definition StorageManager_getTagRegistry (stored : option string) : Completion json :=
  match stored with
  | None => Returns (JObject [])
  | Some raw =>
      if bool_decide (raw = EmptyString) then Returns (JObject [])
      else match JSON_parse raw with
           | Some v => Returns v
           | None => Returns (JObject [])
           end
  end.
End Reading.

(** A decoder for the tag blobs the plugin writes when no tag needs an
    escape: a bracketed, comma separated list of quoted strings.  It agrees
    with [JSON.parse] on those and rejects everything else; it instantiates
    the parameter in the examples. *)
Inductive scan_state :=
| at_start | after_open | in_string (cur : string) | after_string | after_comma | at_end.

Fixpoint scan (st : scan_state) (acc : list json) (s : string) : option json :=
  match s with
  | EmptyString => if st is at_end then Some (JArray (reverse acc)) else None
  | String c rest =>
      match st with
      | at_start => if Ascii.eqb c "[" then scan after_open acc rest else None
      | after_open =>
          if Ascii.eqb c "]" then scan at_end acc rest
          else if Ascii.eqb c JS.dquote then scan (in_string EmptyString) acc rest
          else None
      | in_string cur =>
          if Ascii.eqb c JS.dquote then scan after_string (JString (String.rev cur) :: acc) rest
          else if Ascii.eqb c "\" then None
          else scan (in_string (String c cur)) acc rest
      | after_string =>
          if Ascii.eqb c "," then scan after_comma acc rest
          else if Ascii.eqb c "]" then scan at_end acc rest
          else None
      | after_comma =>
          if Ascii.eqb c JS.dquote then scan (in_string EmptyString) acc rest else None
      | at_end => None
      end
  end.

Definition parse_tag_blob (s : string) : option json := scan at_start [] s.
End Blob.

(** ** The sandbox code of the full variant

    The controller keeps what the view sends: [set-node-tags] and
    [set-tag-registry] overwrite the blobs. *)

Module Sandbox.

Inductive FigmaType :=
| STICKY | TEXT | FRAME | GROUP | RECTANGLE | ELLIPSE | POLYGON | STAR | VECTOR | OTHER.

Definition getNodeType (t : FigmaType) : string :=
  match t with
  | STICKY => "sticky"
  | TEXT => "text"
  | FRAME | GROUP => "frame"
  | RECTANGLE | ELLIPSE | POLYGON | STAR | VECTOR => "shape"
  | OTHER => "other"
  end.

Record SceneNode := mkSceneNode { name : string; type : FigmaType }.

Record NodeData := mkNodeData {
  nd_id : NodeId; nd_name : string; nd_type : string; nd_tags : list TagName }.

Record Figma := mkFigma {
  nodes : gmap NodeId SceneNode;                (* figma.getNodeById *)
  nodeTags : gmap NodeId (list TagName);        (* decoded node-tags blobs *)
  tagRegistry : gmap string TagMeta             (* decoded tag-registry blob *)
}.

Definition getNodeTags (st : Figma) (n : NodeId) : list TagName :=
  default [] (nodeTags st !! n).

Definition getNodeData (st : Figma) (n : NodeId) (node : SceneNode) : NodeData :=
  mkNodeData n (name node) (getNodeType (type node)) (getNodeTags st n).

Inductive Effect :=
| node_updated (node : NodeData)
| tag_registry_updated (registry : TagRegistry)
| console_warn.

Definition handleSetNodeTags (nodeId : NodeId) (tags : list TagName) (st : Figma)
  : Figma * list Effect :=
  match nodes st !! nodeId with
  | None => (st, [console_warn])
  | Some node =>
      let st := mkFigma (nodes st) (<[nodeId := tags]> (nodeTags st)) (tagRegistry st) in
      (st, [node_updated (getNodeData st nodeId node)])
  end.

Definition handleSetTagRegistry (registry : TagRegistry) (st : Figma)
  : Figma * list Effect :=
  (mkFigma (nodes st) (nodeTags st) registry, [tag_registry_updated registry]).

(** The cases of [figma.ui.onmessage] that write; the others read, select or
    close and leave the blobs alone. *)
Inductive Msg :=
| set_node_tags (nodeId : NodeId) (tags : list TagName)
| set_tag_registry (registry : TagRegistry)
| other_message.

Definition onmessage (msg : Msg) (st : Figma) : Figma * list Effect :=
  match msg with
  | set_node_tags nodeId tags => handleSetNodeTags nodeId tags st
  | set_tag_registry registry => handleSetTagRegistry registry st
  | other_message => (st, [])
  end.

End Sandbox.

(** ** The view of the full variant *)

Module View.

Record FigJamNode := mkNode {
  id : NodeId; name : string; type : string; tags : list TagName }.

Abbreviation NodeRegistry := (gmap NodeId FigJamNode).

(** What a handler does to the state it was given, with its toast. *)
Inductive Outcome (A : Type) :=
| ignored
| rejected (error : string)
| changed (new : A) (success : string).
Arguments ignored {A}.
Arguments rejected {A} error.
Arguments changed {A} new success.


(** TagManager.tsx: [handleRenameTag]. *)
Definition handleRenameTag (registry : TagRegistry) (tag : TagName) (newName : string)
  : Outcome TagRegistry :=
  let trimmedNewName := JS.trim newName in
  if bool_decide (trimmedNewName = EmptyString ∨ trimmedNewName = tag) then ignored
  else if JS.truthy registry trimmedNewName
  then rejected "Tag with that name already exists"
  else
    match registry !! tag with
    | Some m => changed (delete tag (JS.assign registry trimmedNewName m)) "Tag renamed"
    | None =>   (* [undefined] or an inherited function: a value that is
                   dropped when the registry is serialised *)
        changed (delete tag (delete trimmedNewName registry)) "Tag renamed"
    end.

(** TagManager.tsx: the metadata loop of [handleMergeTags]. *)
Definition foldMeta (intoTag : TagName) (newRegistry : TagRegistry) (fromTag : TagName)
  : TagRegistry :=
  if JS.truthy newRegistry fromTag && bool_decide (fromTag ≠ intoTag)
  then delete fromTag
         (JS.assign newRegistry intoTag
            (spread (default no_meta (newRegistry !! fromTag))
                    (default no_meta (newRegistry !! intoTag))))
  else newRegistry.

Definition mergeRegistry (intoTag : TagName) (fromTags : list TagName)
    (registry : TagRegistry) : TagRegistry :=
  let newRegistry :=
    if negb (JS.truthy registry intoTag) then JS.assign registry intoTag no_meta
    else registry in
  foldl (foldMeta intoTag) newRegistry fromTags.

(** TagManager.tsx: [handleMergeTags], on the two fields of the dialog; the
    registry it hands to [onRegistryChange].  (The nodes are merged by the
    [onMergeTags] callback of the application.) *)
Definition handleMergeTags (registry : TagRegistry) (into from : string)
  : Outcome TagRegistry :=
  let intoTag := JS.trim into in
  let fromTags := JS.tag_list_of_input from in
  if bool_decide (intoTag = EmptyString ∨ length fromTags = 0)
  then rejected "Please specify tags to merge"
  else changed (mergeRegistry intoTag fromTags registry)
             ("Merged tags into " +:+ JS.quote +:+ intoTag +:+ JS.quote).

Inductive Mode := add | remove.

(** SelectionTagger.tsx: [handleBulkTagOperation]. *)
Definition bulkStep (mode : Mode) (tags : list TagName)
    (acc : NodeRegistry * nat) (nodeId : NodeId) : NodeRegistry * nat :=
  let '(newNodes, updatedCount) := acc in
  match newNodes !! nodeId with
  | None => acc
  | Some node =>
      let newTags :=
        match mode with
        | add => JS.new_Set (View.tags node ++ tags)%list
        | remove => filter (λ tag, negb (JS.includes tags tag)) (View.tags node)
        end in
      (<[nodeId := mkNode (id node) (name node) (type node) newTags]> newNodes,
       S updatedCount)
  end.

Definition handleBulkTagOperation (mode : Mode) (tagInput : string)
    (selectedNodeIds : list NodeId) (nodes : NodeRegistry) : Outcome (NodeRegistry * nat) :=
  if bool_decide (length selectedNodeIds = 0) then rejected "No nodes selected"
  else
    let tags := JS.tag_list_of_input tagInput in
    if bool_decide (length tags = 0) then rejected "Please enter tags"
    else
      let result := foldl (bulkStep mode tags) (nodes, 0) selectedNodeIds in
      let action := match mode with add => "Tagged" | remove => "Removed tags from" end in
      changed result (action +:+ " " +:+ pretty result.2 +:+ " node(s)").

(** [Object.values(nodes)]; the order of enumeration is the map's. *)
Definition Object_values (nodes : NodeRegistry) : list FigJamNode :=
  (map_to_list nodes).*2.

(** PluginApp: [handleNodesChange], the [set-node-tags] messages it posts. *)
Definition handleNodesChange (nodes newNodes : NodeRegistry)
  : list (NodeId * list TagName) :=
  omap (λ node,
          match nodes !! id node with
          | None => Some (id node, tags node)
          | Some oldNode =>
              if bool_decide (tags oldNode ≠ tags node)
              then Some (id node, tags node) else None
          end)
       (Object_values newNodes).

(** PluginApp: [handleMergeTags]; the new node registry, the [set-node-tags]
    messages posted on the way, and the count returned. *)
Definition mergedTags (into : TagName) (fromList : list TagName) (tags : list TagName)
  : list TagName :=
  let newTags := JS.new_Set tags in
  let newTags := foldl (λ s tag, (JS.Set_delete s tag).1) newTags fromList in
  let newTags := JS.Set_add newTags into in
  JS.sort newTags.

Definition mergeStep (into : TagName) (fromList : list TagName)
    (acc : NodeRegistry * list (NodeId * list TagName) * nat) (node : FigJamNode)
  : NodeRegistry * list (NodeId * list TagName) * nat :=
  let '(newNodes, posted, updatedCount) := acc in
  let hasAnyFromTag := existsb (λ tag, JS.includes (tags node) tag) fromList in
  if hasAnyFromTag then
    let updatedNode :=
      mkNode (id node) (name node) (type node) (mergedTags into fromList (tags node)) in
    (<[id node := updatedNode]> newNodes,
     posted ++ [(id node, tags updatedNode)],
     S updatedCount)
  else acc.

Definition handleMergeTagsOnNodes (into : TagName) (fromList : list TagName)
    (nodes : NodeRegistry) : NodeRegistry * list (NodeId * list TagName) * nat :=
  foldl (mergeStep into fromList) (nodes, [], 0) (Object_values nodes).

(** SelectionTagger.tsx: [handleQuickTag], the click on a tag chip. *)
Definition quickStep (mode : Mode) (tag : TagName)
    (acc : NodeRegistry * nat) (nodeId : NodeId) : NodeRegistry * nat :=
  let '(newNodes, updatedCount) := acc in
  match newNodes !! nodeId with
  | None => acc
  | Some node =>
      match mode with
      | add =>
          if negb (JS.includes (tags node) tag)
          then (<[nodeId := mkNode (id node) (name node) (type node) (tags node ++ [tag])]>
                  newNodes,
                S updatedCount)
          else acc
      | remove =>
          if JS.includes (tags node) tag
          then (<[nodeId := mkNode (id node) (name node) (type node)
                                   (filter (λ t, t ≠ tag) (tags node))]> newNodes,
                S updatedCount)
          else acc
      end
  end.

Definition handleQuickTag (mode : Mode) (tag : TagName)
    (selectedNodeIds : list NodeId) (nodes : NodeRegistry) : Outcome (NodeRegistry * nat) :=
  if bool_decide (length selectedNodeIds = 0) then rejected "No nodes selected"
  else
    let result := foldl (quickStep mode tag) (nodes, 0) selectedNodeIds in
    let action := match mode with add => "Tagged" | remove => "Removed tag from" end in
    changed result (action +:+ " " +:+ pretty result.2 +:+ " node(s)").

(** TagManager.tsx and CompactTagManager.tsx: [handleDeleteTag]. *)
Definition handleDeleteTag (registry : TagRegistry) (tag : TagName) : Outcome TagRegistry :=
  changed (delete tag registry) "Tag deleted".

(** plugin-storage.ts: [PluginStorageManager.exportToCSV]. *)
Definition exportRow (node : FigJamNode) : string :=
  let name := JS.double_quotes (name node) in
  let tags := JS.join "|" (tags node) in
  JS.quote +:+ id node +:+ JS.quote +:+ "," +:+ JS.quote +:+ name +:+ JS.quote +:+ ","
    +:+ JS.quote +:+ type node +:+ JS.quote +:+ "," +:+ JS.quote +:+ tags +:+ JS.quote.

Definition exportRows (values : list FigJamNode) : list string :=
  "nodeId,nodeName,nodeType,tags" :: (exportRow <$> values).

Definition exportToCSV (nodes : NodeRegistry) : string :=
  JS.join JS.newline (exportRows (Object_values nodes)).

End View.

(** ** The page tree that the sandbox code walks *)

Module Canvas.

(** A node of the document with the nodes below it; [is_page] is the test
    [node.type === 'PAGE'], and a node without [children] has none. *)
Local Unset Elimination Schemes.
Inductive SceneTree :=
| scene (id : NodeId) (node : Sandbox.SceneNode) (is_page : bool)
        (children : list SceneTree).
Local Set Elimination Schemes.

Definition tree_id (t : SceneTree) : NodeId := match t with scene id _ _ _ => id end.
Definition tree_is_page (t : SceneTree) : bool := match t with scene _ _ p _ => p end.

(** [scanNode] of [getAllTaggedNodes]. *)
Fixpoint scanNode (st : Sandbox.Figma) (node : SceneTree)
    (nodes : gmap NodeId Sandbox.NodeData) : gmap NodeId Sandbox.NodeData :=
  match node with
  | scene id data is_page children =>
      let nodes :=
        if negb is_page then
          let tags := Sandbox.getNodeTags st id in
          if bool_decide (0 < length tags)%nat
          then <[id := Sandbox.getNodeData st id data]> nodes
          else nodes
        else nodes in
      foldl (λ nodes child, scanNode st child nodes) nodes children
  end.

(** [getAllTaggedNodes], over [figma.currentPage.children]. *)
Definition getAllTaggedNodes (st : Sandbox.Figma) (pageChildren : list SceneTree)
  : gmap NodeId Sandbox.NodeData :=
  foldl (λ nodes child, scanNode st child nodes) ∅ pageChildren.

(** [findNodesWithTag] of [handleSelectNodesWithTag]. *)
Fixpoint findNodesWithTag (st : Sandbox.Figma) (tagName : TagName) (node : SceneTree)
    (nodesWithTag : list NodeId) : list NodeId :=
  match node with
  | scene id data is_page children =>
      let nodesWithTag :=
        if negb is_page then
          if JS.includes (Sandbox.getNodeTags st id) tagName
          then nodesWithTag ++ [id]
          else nodesWithTag
        else nodesWithTag in
      foldl (λ found child, findNodesWithTag st tagName child found) nodesWithTag children
  end.

(** [handleSelectNodesWithTag]: the new selection. *)
Definition handleSelectNodesWithTag (st : Sandbox.Figma) (tagName : TagName)
    (pageChildren : list SceneTree) : list NodeId :=
  foldl (λ found child, findNodesWithTag st tagName child found) [] pageChildren.

(** The nodes of a tree, parents before children, in document order. *)
Fixpoint subtree (node : SceneTree) : list SceneTree :=
  match node with
  | scene _ _ _ children =>
      node :: (fix below (cs : list SceneTree) : list SceneTree :=
                 match cs with
                 | [] => []
                 | c :: cs => subtree c ++ below cs
                 end) children
  end.

Definition all_nodes (pageChildren : list SceneTree) : list SceneTree :=
  flat_map subtree pageChildren.

End Canvas.

(** ** The canvas simulator of the full variant (FigJamSimulator) *)

Module Simulator.

(** [xs.indexOf(x)], [None] standing for -1. *)
Fixpoint indexOf (xs : list string) (x : string) : option nat :=
  match xs with
  | [] => None
  | y :: rest => if bool_decide (y = x) then Some 0 else S <$> indexOf rest x
  end.

(** The body of the node loop of [handleUpdateTag]; an assignment at index
    -1 leaves the elements of the copy as they are. *)
Definition renamedNode (oldTag newTag : TagName) (node : View.FigJamNode)
  : option View.FigJamNode :=
  if JS.includes (View.tags node) oldTag then
    let newTags :=
      match indexOf (View.tags node) oldTag with
      | Some tagIndex => <[tagIndex := newTag]> (View.tags node)
      | None => View.tags node
      end in
    Some (View.mkNode (View.id node) (View.name node) (View.type node) newTags)
  else None.

(** [Object.values(updatedNodes).forEach(node => ... updatedNodes[node.id] = ...)]:
    the values are enumerated before the loop writes. *)
Definition forEachNode (change : View.FigJamNode → option View.FigJamNode)
    (nodes : View.NodeRegistry) : View.NodeRegistry :=
  foldl (λ updatedNodes node,
           match change node with
           | Some node' => <[View.id node := node']> updatedNodes
           | None => updatedNodes
           end)
        nodes (View.Object_values nodes).

(** [handleUpdateTag]: the registry and the nodes handed to the callbacks. *)
Definition handleUpdateTag (oldTag newTag : TagName) (meta : TagMeta)
    (tagRegistry : TagRegistry) (nodes : View.NodeRegistry)
  : View.Outcome (TagRegistry * View.NodeRegistry) :=
  if bool_decide (oldTag = EmptyString ∨ newTag = EmptyString) then View.ignored
  else
    let toast := "Updated tag " +:+ JS.quote +:+ newTag +:+ JS.quote in
    if bool_decide (oldTag ≠ newTag) then
      let newRegistry := JS.assign (delete oldTag tagRegistry) newTag meta in
      View.changed (newRegistry, forEachNode (renamedNode oldTag newTag) nodes) toast
    else View.changed (JS.assign tagRegistry newTag meta, nodes) toast.

(** The body of the node loop of [handleDeleteTag]. *)
Definition strippedNode (tag : TagName) (node : View.FigJamNode)
  : option View.FigJamNode :=
  if JS.includes (View.tags node) tag
  then Some (View.mkNode (View.id node) (View.name node) (View.type node)
               (filter (λ t, t ≠ tag) (View.tags node)))
  else None.

(** [handleDeleteTag]: the registry and the nodes handed to the callbacks. *)
Definition handleDeleteTag (tag : TagName) (tagRegistry : TagRegistry)
    (nodes : View.NodeRegistry) : View.Outcome (TagRegistry * View.NodeRegistry) :=
  if bool_decide (tag = EmptyString) then View.ignored
  else View.changed (delete tag tagRegistry, forEachNode (strippedNode tag) nodes)
                    ("Deleted tag " +:+ JS.quote +:+ tag +:+ JS.quote).

End Simulator.

(** ** The item list of the standalone variant (ItemManager) *)

Module ItemManager.

(** [handleToggleSelection]: the new list of selected ids. *)
Definition handleToggleSelection (selectedItems : list string) (itemId : string)
  : list string :=
  if JS.includes selectedItems itemId
  then filter (λ i, i ≠ itemId) selectedItems
  else selectedItems ++ [itemId].

End ItemManager.

(** ** The view of the MVP (fig_jam_tagger_plugin_mvp.ts, part 4: ui.ts) *)

Module MvpUi.

(** The click handler of the Rename button of tag [t]; [to] is what [prompt]
    returned, [None] when it was dismissed.  The result is the message posted
    to the controller, if any. *)
Definition renameBtn_onclick (t : TagName) (to : option string) : option Mvp.Msg :=
  match to with
  | Some to =>
      if bool_decide (to ≠ EmptyString ∧ to ≠ t) then Some (Mvp.rename_tag t to) else None
  | None => None
  end.


End MvpUi.

(** ** Delivery of the view's messages to the sandbox *)

(** The [set-node-tags] messages of the view, handled in the order posted. *)
Definition deliver (msgs : list (NodeId * list TagName)) (st : Sandbox.Figma)
  : Sandbox.Figma :=
  foldl (λ st msg, (Sandbox.onmessage (Sandbox.set_node_tags msg.1 msg.2) st).1) st msgs.

(** ** Reading a quoted CSV field back

    The reader of RFC 4180 for a field that was opened by a double quote: two
    double quotes stand for one, a single one closes the field.  The result
    is the field and what follows its closing quote. *)

Module Csv.

Fixpoint read_quoted (s : string) : option (string * string) :=
  match s with
  | EmptyString => None
  | String c rest =>
      if Ascii.eqb c JS.dquote then
        match rest with
        | String d rest' =>
            if Ascii.eqb d JS.dquote
            then prod_map (String JS.dquote) id <$> read_quoted rest'
            else Some (EmptyString, rest)
        | EmptyString => Some (EmptyString, EmptyString)
        end
      else prod_map (String c) id <$> read_quoted rest
  end.

(** A field in quotes, as a reader sees it: opening quote first. *)
Definition read_field (s : string) : option (string * string) :=
  match s with
  | String c rest => if Ascii.eqb c JS.dquote then read_quoted rest else None
  | EmptyString => None
  end.

(** A row of [n] quoted fields with commas between them and nothing after
    the last. *)
Fixpoint read_fields (n : nat) (s : string) : option (list string) :=
  match n with
  | 0 => None
  | S n' =>
      match read_field s with
      | None => None
      | Some (field, rest) =>
          match n' with
          | 0 => if rest is EmptyString then Some [field] else None
          | S _ =>
              match rest with
              | String c rest' =>
                  if Ascii.eqb c "," then (field ::.) <$> read_fields n' rest' else None
              | EmptyString => None
              end
          end
      end
  end.

End Csv.

(** ** Sample states *)

(** Scenario B of the specification: node 1 tagged a, b and selected. *)
Definition scenario_B : Mvp.Figma :=
  Mvp.mkFigma ∅ ["1"] ∅ {[ "1" := ["a"; "b"] ]} ["1"].

Definition both_tagged : Mvp.Figma :=
  Mvp.mkFigma {[ "bug" := no_meta ]} ["7"] ∅ {[ "7" := ["bug"; "defect"] ]} [].

Definition two_nodes : Mvp.Figma :=
  Mvp.mkFigma {[ "urgent" := mkTagMeta (Some "#ff0000") None ]} ["1"; "2"] ∅
              {[ "1" := ["urgent"]; "2" := ["bug"; "urgent"] ]} ["1"].

(** A registry with two coloured tags, and a page with one node. *)
Definition red_and_blue : Mvp.Figma :=
  Mvp.mkFigma {[ "a" := mkTagMeta (Some "red") None;
                 "b" := mkTagMeta (Some "blue") (Some "x") ]}
              ["1"] ∅ {[ "1" := ["a"; "b"] ]} [].

(** Scenario D of the specification. *)
Definition say_hi : View.FigJamNode :=
  View.mkNode "1" ("Say " +:+ JS.quote +:+ "hi" +:+ JS.quote) "text" ["a"].

(** A node whose only tag holds a double quote. *)
Definition quoted_tag : View.FigJamNode :=
  View.mkNode "1" "n" "text" ["a" +:+ JS.quote +:+ "b"].

(** The view and the sandbox holding one sticky tagged b. *)
Definition one_sticky_view : View.NodeRegistry :=
  {[ "1" := View.mkNode "1" "n" "sticky" ["b"] ]}.

Definition one_sticky_sandbox : Sandbox.Figma :=
  Sandbox.mkFigma {[ "1" := Sandbox.mkSceneNode "n" Sandbox.STICKY ]} {[ "1" := ["b"] ]} ∅.

(** A page with one node, and a tagged node that is not on it. *)
Definition with_off_page_node : Mvp.Figma :=
  Mvp.mkFigma ∅ ["1"] ∅ {[ "1" := ["urgent"]; "off-page" := ["urgent"] ]} [].

(** A page with one node tagged bug, defect, and a node tagged so that is
    not on it. *)
Definition both_tagged_off_page : Mvp.Figma :=
  Mvp.mkFigma {[ "bug" := no_meta ]} ["7"] ∅
              {[ "7" := ["bug"; "defect"]; "off-page" := ["bug"; "defect"] ]} [].

(** A page with one selected node and no blob yet. *)
Definition fresh_page : Mvp.Figma := Mvp.mkFigma ∅ ["1"] ∅ ∅ ["1"].

(** ** Notions used by the statements *)

(** A tag list as the specification wants it stored: ascending, no entry
    twice. *)
Definition normalized (tags : list TagName) : Prop :=
  Sorted String.le tags ∧ NoDup tags.

Global Instance normalized_dec tags : Decision (normalized tags).
Proof. unfold normalized. apply _. Defined.

(** The number of times [t] occurs in [tags]. *)
Definition occurrences (t : TagName) (tags : list TagName) : nat :=
  length (filter (λ x, x = t) tags).

(** The first value of a field that is set, in the order of the list. *)
Fixpoint first_set (field : TagMeta → option string) (metas : list TagMeta)
  : option string :=
  match metas with
  | [] => None
  | m :: rest => match field m with Some v => Some v | None => first_set field rest end
  end.

(** The entries of the tags listed for a merge other than the target, in
    the order of the list. *)
Definition sources (into : TagName) (lookup : TagName → option TagMeta)
    (fromTags : list TagName) : list TagMeta :=
  omap (λ f, if bool_decide (f = into) then None else lookup f) fromTags.

(** The loops of the MVP that rewrite the tags of each node of a list all
    have this step. *)
Definition touch (g : list TagName → list TagName) (st : Mvp.Figma) (n : NodeId)
  : Mvp.Figma :=
  Mvp.setNodeTags n (g (Mvp.getNodeTags st n)) st.

(** Whether the character [c] occurs in [s]. *)
Fixpoint has_char (c : ascii) (s : string) : bool :=
  match s with
  | EmptyString => false
  | String d rest => Ascii.eqb d c || has_char c rest
  end.

(** A string that does not begin with white space. *)
Definition starts_clean (s : string) : Prop :=
  match s with
  | EmptyString => True
  | String c _ => JS.is_white c = false
  end.

(** What [scanNode] does at one node. *)
Definition scanOne (st : Sandbox.Figma) (nodes : gmap NodeId Sandbox.NodeData)
    (t : Canvas.SceneTree) : gmap NodeId Sandbox.NodeData :=
  match t with
  | Canvas.scene id data is_page _ =>
      if negb is_page then
        if bool_decide (0 < length (Sandbox.getNodeTags st id))%nat
        then <[id := Sandbox.getNodeData st id data]> nodes
        else nodes
      else nodes
  end.

(** What [findNodesWithTag] does at one node. *)
Definition findOne (st : Sandbox.Figma) (tagName : TagName) (found : list NodeId)
    (t : Canvas.SceneTree) : list NodeId :=
  match t with
  | Canvas.scene id _ is_page _ =>
      if negb is_page then
        if JS.includes (Sandbox.getNodeTags st id) tagName then found ++ [id] else found
      else found
  end.

(** The steps of the view's loops over the selected ids: the node under an
    id that is known is replaced by [upd] of it, when [upd] yields one, and
    counted. *)
Definition stepAt (upd : View.FigJamNode → option View.FigJamNode)
    (acc : View.NodeRegistry * nat) (nodeId : NodeId) : View.NodeRegistry * nat :=
  match acc.1 !! nodeId with
  | None => acc
  | Some node =>
      match upd node with
      | Some node' => (<[nodeId := node']> acc.1, S acc.2)
      | None => acc
      end
  end.

(** A node registry is keyed by the ids of its nodes. *)
Definition well_keyed (nodes : View.NodeRegistry) : Prop :=
  ∀ k node, nodes !! k = Some node → View.id node = k.

(** The sandbox stores, for every node the view knows, the tags the view
    shows. *)
Definition in_sync (nodes : View.NodeRegistry) (sandbox : Sandbox.Figma) : Prop :=
  ∀ k node, nodes !! k = Some node → Sandbox.getNodeTags sandbox k = View.tags node.

(** The step of the node loop of [mergeTags], which writes only when [g]
    yields a list. *)
Definition visit (g : list TagName → option (list TagName)) (st : Mvp.Figma) (n : NodeId)
  : Mvp.Figma :=
  match g (Mvp.getNodeTags st n) with
  | Some tags => Mvp.setNodeTags n tags st
  | None => st
  end.

(** What [visit g] makes of the tags of the node it visits. *)
Definition visited (g : list TagName → option (list TagName)) (x : list TagName)
  : list TagName :=
  match g x with
  | Some tags => JS.sort (JS.new_Set tags)
  | None => x
  end.

(** The list the node loop of [mergeTags] writes, if it writes. *)
Definition mergeWrite (into : TagName) (fromList current : list TagName)
  : option (list TagName) :=
  let '(tags, changed) := Mvp.mergedTagSet into fromList current in
  if changed then Some tags else None.

(** Every tag blob of the MVP store is normalized. *)
Definition store_normalized (st : Mvp.Figma) : Prop :=
  ∀ n tags, Mvp.pluginData st !! n = Some tags → normalized tags.

(** * Properties *)

(** ** The host language *)

Example new_Set_ex : JS.new_Set ["b"; "a"; "b"; "c"; "a"] = ["b"; "a"; "c"].
Proof. reflexivity. Qed.
Example sort_ex : JS.sort ["b"; "a"; "B"; "ab"; EmptyString] = [EmptyString; "B"; "a"; "ab"; "b"].
Proof. vm_compute. reflexivity. Qed.
Example trim_ex : JS.trim "  a b  " = "a b".
Proof. reflexivity. Qed.
Example split_ex : JS.tag_list_of_input " a, b ,,c " = ["a"; "b"; "c"].
Proof. reflexivity. Qed.
Example dq_ex :
  JS.double_quotes ("Say " +:+ JS.quote +:+ "hi" +:+ JS.quote)
  = "Say " +:+ JS.quote +:+ JS.quote +:+ "hi" +:+ JS.quote +:+ JS.quote.
Proof. reflexivity. Qed.

Example inherited_ex :
  JS.inherited "constructor" = true ∧ JS.inherited "Constructor" = false
  ∧ JS.truthy (∅ : gmap string nat) "toString" = true
  ∧ JS.truthy (∅ : gmap string nat) "urgent" = false
  ∧ JS.assign (∅ : gmap string nat) "__proto__" 1 = ∅
  ∧ JS.assign (∅ : gmap string nat) "valueOf" 1 = {[ "valueOf" := 1 ]}.
Proof. split_and!; reflexivity. Qed.

(** ** Reading and writing the properties of an object *)

Lemma truthy_own {A} (o : gmap string A) (k : string) :
  is_Some (o !! k) → JS.truthy o k = true.
Proof. intros Hk. unfold JS.truthy. by rewrite bool_decide_eq_true_2. Qed.

Lemma truthy_inherited {A} (o : gmap string A) (k : string) :
  JS.inherited k = true → JS.truthy o k = true.
Proof. intros Hk. unfold JS.truthy. rewrite Hk. apply orb_true_r. Qed.

Lemma truthy_plain {A} (o : gmap string A) (k : string) :
  o !! k = None → JS.inherited k = false → JS.truthy o k = false.
Proof.
  intros Hk Hinh. unfold JS.truthy. rewrite Hinh, bool_decide_eq_false_2; [done|].
  rewrite Hk. by intros [? ?].
Qed.

Lemma truthy_cases {A} (o : gmap string A) (k : string) :
  JS.truthy o k = true ↔ is_Some (o !! k) ∨ JS.inherited k = true.
Proof.
  unfold JS.truthy. rewrite orb_true_iff, bool_decide_eq_true. tauto.
Qed.

Lemma truthy_false {A} (o : gmap string A) (k : string) :
  JS.truthy o k = false → o !! k = None ∧ JS.inherited k = false.
Proof.
  unfold JS.truthy. rewrite orb_false_iff, bool_decide_eq_false. intros [Hk ->].
  split; [|done]. destruct (o !! k) eqn:Hlook; [|done]. destruct Hk. by eexists.
Qed.

Lemma not_inherited_proto (k : string) : JS.inherited k = false → k ≠ "__proto__".
Proof. by intros Hk ->. Qed.

(** An assignment is an insertion unless it runs the inherited setter. *)
Lemma assign_insert {A} (o : gmap string A) (k : string) (v : A) :
  k ≠ "__proto__" ∨ is_Some (o !! k) → JS.assign o k v = <[k := v]> o.
Proof.
  intros Hk. unfold JS.assign. rewrite bool_decide_eq_false_2; [done|].
  intros [-> Hnone]. destruct Hk as [?|[? Hsome]]; congruence.
Qed.

Lemma assign_setter {A} (o : gmap string A) (v : A) :
  o !! "__proto__" = None → JS.assign o "__proto__" v = o.
Proof. intros Hk. unfold JS.assign. by rewrite bool_decide_eq_true_2. Qed.

Lemma assign_lookup_ne {A} (o : gmap string A) (k k' : string) (v : A) :
  k ≠ k' → JS.assign o k v !! k' = o !! k'.
Proof.
  intros Hne. unfold JS.assign. case_bool_decide; [done|]. by apply lookup_insert_ne.
Qed.

Lemma assign_lookup_eq {A} (o : gmap string A) (k : string) (v : A) :
  k ≠ "__proto__" ∨ is_Some (o !! k) → JS.assign o k v !! k = Some v.
Proof. intros Hk. rewrite assign_insert by done. apply lookup_insert_eq. Qed.

(** An assignment never removes an own property. *)
Lemma assign_keeps {A} (o : gmap string A) (k k' : string) (v : A) :
  is_Some (o !! k') → is_Some (JS.assign o k v !! k').
Proof.
  intros Hk'. destruct (decide (k = k')) as [->|Hne].
  - rewrite assign_lookup_eq; [by eexists|by right].
  - by rewrite assign_lookup_ne.
Qed.

Lemma foldl_Set_add_elem (l acc : list string) (x : string) :
  x ∈ foldl JS.Set_add acc l ↔ x ∈ acc ∨ x ∈ l.
Proof.
  revert acc. induction l as [|y l IH]; intros acc; simpl.
  - rewrite elem_of_nil. tauto.
  - rewrite IH, elem_of_cons. unfold JS.Set_add. case_bool_decide as Hy.
    + split; [tauto|]. intros [?|[->|?]]; auto.
    + rewrite elem_of_app, list_elem_of_singleton. tauto.
Qed.

Lemma foldl_Set_add_NoDup (l acc : list string) :
  NoDup acc → NoDup (foldl JS.Set_add acc l).
Proof.
  revert acc. induction l as [|y l IH]; intros acc Hacc; simpl; [done|].
  apply IH. unfold JS.Set_add. case_bool_decide as Hy; [done|].
  apply NoDup_app. split_and!; [done| |apply NoDup_singleton].
  intros z Hz ->%list_elem_of_singleton. done.
Qed.

Lemma foldl_Set_add_fresh (l acc : list string) :
  NoDup (acc ++ l) → foldl JS.Set_add acc l = acc ++ l.
Proof.
  revert acc. induction l as [|y l IH]; intros acc Hnd; simpl.
  - by rewrite app_nil_r.
  - unfold JS.Set_add. case_bool_decide as Hy.
    + apply NoDup_app in Hnd as (_ & Hdisj & _). exfalso.
      apply (Hdisj y Hy). by left.
    + rewrite IH; rewrite <- app_assoc; done.
Qed.

Lemma new_Set_elem (l : list string) (x : string) : x ∈ JS.new_Set l ↔ x ∈ l.
Proof.
  unfold JS.new_Set. rewrite foldl_Set_add_elem, elem_of_nil. tauto.
Qed.

Lemma new_Set_NoDup (l : list string) : NoDup (JS.new_Set l).
Proof. apply foldl_Set_add_NoDup, NoDup_nil_2. Qed.

Lemma new_Set_id (l : list string) : NoDup l → JS.new_Set l = l.
Proof. intros Hl. unfold JS.new_Set. by rewrite foldl_Set_add_fresh. Qed.

Lemma sort_elem (l : list string) (x : string) : x ∈ JS.sort l ↔ x ∈ l.
Proof. unfold JS.sort. by rewrite merge_sort_Permutation. Qed.

Lemma sort_NoDup (l : list string) : NoDup l → NoDup (JS.sort l).
Proof. unfold JS.sort. by rewrite merge_sort_Permutation. Qed.

Lemma sort_Sorted (l : list string) : Sorted String.le (JS.sort l).
Proof. apply (Sorted_merge_sort String.le). Qed.

Lemma sort_id (l : list string) : Sorted String.le l → JS.sort l = l.
Proof.
  intros Hl. apply (Sorted_unique String.le); [apply sort_Sorted|done|].
  apply merge_sort_Permutation.
Qed.

(** What [setNodeTags] writes is normalized, has the members of its argument,
    and is its argument when that was normalized already. *)
Lemma stored_normalized (l : list string) : normalized (JS.sort (JS.new_Set l)).
Proof. split; [apply sort_Sorted|apply sort_NoDup, new_Set_NoDup]. Qed.

Lemma stored_elem (l : list string) (x : string) : x ∈ JS.sort (JS.new_Set l) ↔ x ∈ l.
Proof. by rewrite sort_elem, new_Set_elem. Qed.

Lemma stored_id (l : list string) : normalized l → JS.sort (JS.new_Set l) = l.
Proof. intros [Hs Hn]. by rewrite new_Set_id, sort_id. Qed.

Lemma filter_none {A} (P : A → Prop) `{∀ x, Decision (P x)} (l : list A) :
  (∀ x, x ∈ l → ¬ P x) → filter P l = [].
Proof.
  induction l as [|y l IH]; intros Hl; [done|].
  rewrite filter_cons_False by (apply Hl; by left).
  apply IH. intros x Hx. apply Hl. by right.
Qed.

Lemma occurrences_NoDup (t : TagName) (tags : list TagName) :
  NoDup tags → t ∈ tags → occurrences t tags = 1.
Proof.
  unfold occurrences. induction 1 as [|x l Hx Hl IH]; intros Ht.
  - by apply elem_of_nil in Ht.
  - apply elem_of_cons in Ht as [<-|Ht].
    + rewrite filter_cons_True by done. simpl. f_equal.
      rewrite filter_none; [done|]. intros y Hy ->. done.
    + rewrite filter_cons_False; [by apply IH|]. intros ->. done.
Qed.

(** ** The node loops of the MVP *)

Section NodeLoops.
Context (g : list TagName → list TagName).

Lemma touch_tags_eq st n :
  Mvp.getNodeTags (touch g st n) n = JS.sort (JS.new_Set (g (Mvp.getNodeTags st n))).
Proof. unfold touch, Mvp.getNodeTags. simpl. by rewrite lookup_insert_eq. Qed.

Lemma touch_data_ne st n m :
  n ≠ m → Mvp.pluginData (touch g st n) !! m = Mvp.pluginData st !! m.
Proof. intros Hne. unfold touch. simpl. by rewrite lookup_insert_ne. Qed.

Lemma touch_tags_ne st n m :
  n ≠ m → Mvp.getNodeTags (touch g st n) m = Mvp.getNodeTags st m.
Proof. intros Hne. unfold Mvp.getNodeTags. by rewrite touch_data_ne. Qed.

Lemma loop_frame st l :
  Mvp.registry (foldl (touch g) st l) = Mvp.registry st
  ∧ Mvp.page (foldl (touch g) st l) = Mvp.page st
  ∧ Mvp.nodeName (foldl (touch g) st l) = Mvp.nodeName st
  ∧ Mvp.selection (foldl (touch g) st l) = Mvp.selection st.
Proof.
  revert st. induction l as [|n l IH]; intros st; simpl; [done|].
  destruct (IH (touch g st n)) as (-> & -> & -> & ->). done.
Qed.

Lemma loop_data_notin st l n :
  n ∉ l → Mvp.pluginData (foldl (touch g) st l) !! n = Mvp.pluginData st !! n.
Proof.
  revert st. induction l as [|m l IH]; intros st Hn; simpl; [done|].
  apply not_elem_of_cons in Hn as [Hne Hn].
  rewrite IH by done. by apply touch_data_ne.
Qed.

(** A property of the tags of [n] that each rewriting keeps is kept by the
    loop. *)
Lemma loop_inv (R : list TagName → Prop) st l n :
  (∀ x, R x → R (JS.sort (JS.new_Set (g x)))) →
  R (Mvp.getNodeTags st n) → R (Mvp.getNodeTags (foldl (touch g) st l) n).
Proof.
  intros Hstep. revert st. induction l as [|m l IH]; intros st HR; simpl; [done|].
  apply IH. destruct (decide (m = n)) as [->|Hne].
  - rewrite touch_tags_eq. by apply Hstep.
  - by rewrite touch_tags_ne.
Qed.

(** What each rewriting establishes holds, after the loop, of every node the
    loop visits. *)
Lemma loop_last (R P : list TagName → Prop) st l n :
  (∀ x, R x → R (JS.sort (JS.new_Set (g x)))) →
  (∀ x, R x → P (JS.sort (JS.new_Set (g x)))) →
  R (Mvp.getNodeTags st n) → n ∈ l →
  P (Mvp.getNodeTags (foldl (touch g) st l) n).
Proof.
  intros HR HP. revert st. induction l as [|m l IH] using rev_ind; intros st Hst Hn.
  - by apply elem_of_nil in Hn.
  - rewrite foldl_snoc. destruct (decide (m = n)) as [->|Hne].
    + rewrite touch_tags_eq. apply HP. by apply loop_inv.
    + rewrite touch_tags_ne by done. apply IH; [done|].
      apply elem_of_app in Hn as [Hn|Hn%list_elem_of_singleton]; [done|congruence].
Qed.

Lemma touch_store_normalized st n : store_normalized st → store_normalized (touch g st n).
Proof.
  intros Hst m tags. unfold touch. simpl. destruct (decide (n = m)) as [->|Hne].
  - rewrite lookup_insert_eq. intros [= <-]. apply stored_normalized.
  - rewrite lookup_insert_ne by done. apply Hst.
Qed.

Lemma loop_store_normalized st l :
  store_normalized st → store_normalized (foldl (touch g) st l).
Proof.
  revert st. induction l as [|n l IH]; intros st Hst; simpl; [done|].
  by apply IH, touch_store_normalized.
Qed.

(** The selection loops count one per node visited. *)
Lemma counting_loop l st k :
  foldl (λ '(st, updated) n, (touch g st n, S updated)) (st, k) l
  = (foldl (touch g) st l, k + length l).
Proof.
  revert st k. induction l as [|n l IH]; intros st k; simpl.
  - by rewrite Nat.add_0_r.
  - rewrite IH. f_equal. lia.
Qed.
End NodeLoops.

Lemma addTagsToSelection_loop tags st :
  Mvp.addTagsToSelection tags st
  = (foldl (touch (λ current, JS.new_Set (current ++ tags))) st (Mvp.selection st),
     length (Mvp.selection st)).
Proof.
  unfold Mvp.addTagsToSelection. case_bool_decide as Hlen.
  - apply length_zero_iff_nil in Hlen. by rewrite Hlen.
  - apply (counting_loop (λ current, JS.new_Set (current ++ tags))).
Qed.

Lemma removeTagsFromSelection_loop tags st :
  Mvp.removeTagsFromSelection tags st
  = (foldl (touch (λ current, filter (λ t, negb (JS.includes tags t)) current))
           st (Mvp.selection st),
     length (Mvp.selection st)).
Proof.
  unfold Mvp.removeTagsFromSelection. case_bool_decide as Hlen.
  - apply length_zero_iff_nil in Hlen. by rewrite Hlen.
  - apply (counting_loop (λ current, filter (λ t, negb (JS.includes tags t)) current)).
Qed.

(** ** Selection-scoped assignment and removal *)

(** C10: the count returned by [addTagsToSelection] and by
    [removeTagsFromSelection] is the number of selected nodes, whatever the
    tags and whatever the nodes carry already (so 0 for an empty selection),
    and it is the count the controller notifies. *)
Theorem selection_count_is_selection_size (tags : list TagName) (st : Mvp.Figma) :
  (Mvp.addTagsToSelection tags st).2 = length (Mvp.selection st)
  ∧ (Mvp.removeTagsFromSelection tags st).2 = length (Mvp.selection st)
  ∧ (Mvp.onmessage (Mvp.assign_tags_to_selection tags) st).2
      = [Mvp.notify_tagged (length (Mvp.selection st))]
  ∧ (Mvp.onmessage (Mvp.remove_tags_from_selection tags) st).2
      = [Mvp.notify_removed (length (Mvp.selection st))].
Proof.
  unfold Mvp.onmessage.
  rewrite addTagsToSelection_loop, removeTagsFromSelection_loop. done.
Qed.

Lemma removed_elem (tags x : list TagName) (t : TagName) :
  t ∈ JS.sort (JS.new_Set (filter (λ t, negb (JS.includes tags t)) x)) ↔ t ∈ x ∧ t ∉ tags.
Proof.
  rewrite stored_elem, list_elem_of_filter. unfold JS.includes.
  rewrite negb_True, bool_decide_spec. tauto.
Qed.

(** C9: [removeTagsFromSelection] leaves on every selected node the tags it
    had that are not in the removal list, tags of the list that the node does
    not carry being of no effect; on the node 1 tagged a, b the removal of
    b, c leaves exactly a and the count is 1. *)
Theorem removeTags_is_set_difference :
  (∀ (tags : list TagName) (st : Mvp.Figma) (n : NodeId) (t : TagName),
     n ∈ Mvp.selection st →
     t ∈ Mvp.getNodeTags (Mvp.removeTagsFromSelection tags st).1 n
     ↔ t ∈ Mvp.getNodeTags st n ∧ t ∉ tags)
  ∧ (∀ st : Mvp.Figma,
       Mvp.selection st = ["1"] →
       Mvp.pluginData st !! "1" = Some ["a"; "b"] →
       Mvp.getNodeTags (Mvp.removeTagsFromSelection ["b"; "c"] st).1 "1" = ["a"]
       ∧ (Mvp.removeTagsFromSelection ["b"; "c"] st).2 = 1).
Proof.
  split.
  - intros tags st n t Hn. rewrite removeTagsFromSelection_loop. simpl.
    set (orig := Mvp.getNodeTags st n).
    apply (loop_last _
             (λ x, ∀ t, t ∉ tags → (t ∈ x ↔ t ∈ orig))
             (λ x, ∀ t, t ∈ x ↔ t ∈ orig ∧ t ∉ tags)); [| |done|done].
    + intros x Hx u Hu. rewrite removed_elem. specialize (Hx u Hu). tauto.
    + intros x Hx u. rewrite removed_elem. split.
      * intros [Hux Hu]. split; [by apply Hx|done].
      * intros [Hux Hu]. split; [by apply Hx|done].
  - intros st Hsel Hdata. rewrite removeTagsFromSelection_loop, Hsel. simpl.
    split; [|done]. rewrite touch_tags_eq. unfold Mvp.getNodeTags. rewrite Hdata.
    vm_compute. reflexivity.
Qed.

Lemma removeTags_is_set_difference_witness :
  ("a" ∈ Mvp.getNodeTags (Mvp.removeTagsFromSelection ["b"; "c"] scenario_B).1 "1"
   ↔ "a" ∈ Mvp.getNodeTags scenario_B "1" ∧ "a" ∉ ["b"; "c"])
  ∧ Mvp.getNodeTags (Mvp.removeTagsFromSelection ["b"; "c"] scenario_B).1 "1" = ["a"]
  ∧ (Mvp.removeTagsFromSelection ["b"; "c"] scenario_B).2 = 1.
Proof.
  split.
  - apply (proj1 removeTags_is_set_difference ["b"; "c"] scenario_B "1" "a").
    simpl. apply list_elem_of_singleton. reflexivity.
  - apply (proj2 removeTags_is_set_difference scenario_B); reflexivity.
Defined.

(** ** Renaming *)

Lemma findAll_includes st st' n t :
  Mvp.page st' = Mvp.page st → Mvp.pluginData st' = Mvp.pluginData st →
  n ∈ Mvp.findAll (λ n, JS.includes (Mvp.getNodeTags st' n) t) st'
  ↔ n ∈ Mvp.page st ∧ t ∈ Mvp.getNodeTags st n.
Proof.
  intros Hp Hd. unfold Mvp.findAll, JS.includes, Mvp.getNodeTags.
  rewrite list_elem_of_filter, bool_decide_spec, Hp, Hd. tauto.
Qed.

(** C5, as stated for every object, fails on a node that is not on the
    current page: [renameTagEverywhere] visits the nodes that
    [figma.currentPage.findAll] yields, and a node elsewhere that is tagged
    bug, defect still carries bug after the rename of bug to defect. *)
Lemma rename_skips_off_page_node :
  ("off-page" ∉ Mvp.page both_tagged_off_page)
  ∧ "bug" ∈ Mvp.getNodeTags both_tagged_off_page "off-page"
  ∧ "defect" ∈ Mvp.getNodeTags both_tagged_off_page "off-page"
  ∧ "bug" ∈ Mvp.getNodeTags (Mvp.renameTagEverywhere "bug" "defect" both_tagged_off_page).1
              "off-page"
  ∧ Mvp.getNodeTags (Mvp.renameTagEverywhere "bug" "defect" both_tagged_off_page).1 "7"
    = ["defect"].
Proof.
  split_and!.
  - simpl. intros Hin. apply list_elem_of_singleton in Hin. discriminate Hin.
  - vm_compute. left.
  - vm_compute. right. left.
  - vm_compute. left.
  - vm_compute. reflexivity.
Qed.

(** C5, amended: a node of the current page tagged with both [from] and
    [to], [from ≠ to], carries [to] exactly once and [from] no more after
    [renameTagEverywhere from to]. *)
Theorem rename_onto_existing_tag (from to : TagName) (st : Mvp.Figma) (n : NodeId) :
  from ≠ to →
  n ∈ Mvp.page st →
  from ∈ Mvp.getNodeTags st n →
  to ∈ Mvp.getNodeTags st n →
  occurrences to (Mvp.getNodeTags (Mvp.renameTagEverywhere from to st).1 n) = 1
  ∧ from ∉ Mvp.getNodeTags (Mvp.renameTagEverywhere from to st).1 n.
Proof.
  intros Hne Hpage Hfrom Hto. unfold Mvp.renameTagEverywhere. simpl.
  set (st1 := if JS.truthy (Mvp.getRegistry st) from then _ else _).
  assert (Mvp.page st1 = Mvp.page st ∧ Mvp.pluginData st1 = Mvp.pluginData st) as [Hp Hd].
  { subst st1. by destruct (JS.truthy (Mvp.getRegistry st) from). }
  set (g := λ x : list TagName, (λ t, if bool_decide (t = from) then to else t) <$> x).
  assert (∀ x u, u ∈ JS.sort (JS.new_Set (g x))
                 ↔ ∃ y, u = (if bool_decide (y = from) then to else y) ∧ y ∈ x) as Hg.
  { intros x u. subst g. simpl. by rewrite stored_elem, list_elem_of_fmap. }
  apply (loop_last g (λ x, to ∈ x) (λ x, occurrences to x = 1 ∧ from ∉ x)).
  - intros x Hx. apply Hg. exists to. split; [|done]. by case_bool_decide.
  - intros x Hx. split.
    + apply occurrences_NoDup; [apply stored_normalized|].
      apply Hg. exists to. split; [|done]. by case_bool_decide.
    + intros (y & Hy & _)%Hg. case_bool_decide; congruence.
  - unfold Mvp.getNodeTags in *. by rewrite Hd.
  - by apply (proj2 (findAll_includes st st1 n from Hp Hd)).
Qed.

Lemma rename_onto_existing_tag_witness :
  occurrences "defect"
    (Mvp.getNodeTags (Mvp.renameTagEverywhere "bug" "defect" both_tagged).1 "7") = 1
  ∧ "bug" ∉ Mvp.getNodeTags (Mvp.renameTagEverywhere "bug" "defect" both_tagged).1 "7".
Proof.
  apply (rename_onto_existing_tag "bug" "defect" both_tagged "7").
  - discriminate.
  - simpl. apply list_elem_of_singleton. reflexivity.
  - vm_compute. left.
  - vm_compute. right. left.
Defined.

(** ** Deleting a tag *)

Lemma deleteTag_loop t st :
  Mvp.deleteTag t st
  = foldl (touch (λ x, filter (λ u, u ≠ t) x))
          (Mvp.setRegistry (delete t (Mvp.registry st)) st)
          (filter (λ n, t ∈ Mvp.getNodeTags st n) (Mvp.page st)).
Proof.
  unfold Mvp.deleteTag, Mvp.findAll, Mvp.getRegistry. simpl. f_equal.
  apply list_filter_iff. intros n. unfold JS.includes, Mvp.getNodeTags. simpl.
  apply bool_decide_spec.
Qed.

Lemma deleteTag_strips t st n :
  n ∈ Mvp.page st → t ∉ Mvp.getNodeTags (Mvp.deleteTag t st) n.
Proof.
  intros Hn. rewrite deleteTag_loop.
  set (st1 := Mvp.setRegistry _ st).
  destruct (decide (t ∈ Mvp.getNodeTags st n)) as [Ht|Ht].
  - apply (loop_last _ (λ _, True) (λ x, t ∉ x)); [done| |done|].
    + intros x _. rewrite stored_elem, list_elem_of_filter. tauto.
    + apply list_elem_of_filter. done.
  - unfold Mvp.getNodeTags. rewrite loop_data_notin; [done|].
    rewrite list_elem_of_filter. tauto.
Qed.

Lemma deleteTag_frame t st :
  Mvp.registry (Mvp.deleteTag t st) = delete t (Mvp.registry st)
  ∧ Mvp.page (Mvp.deleteTag t st) = Mvp.page st.
Proof.
  rewrite deleteTag_loop.
  destruct (loop_frame (λ x, filter (λ u, u ≠ t) x)
              (Mvp.setRegistry (delete t (Mvp.registry st)) st)
              (filter (λ n, t ∈ Mvp.getNodeTags st n) (Mvp.page st)))
    as (-> & -> & _). done.
Qed.

(** C6, as stated for every object, fails on a node that is not on the
    current page: the cascade of [delete-tag] visits the nodes that
    [figma.currentPage.findAll] yields, and a node elsewhere keeps the tag
    while the registry has no entry for it any more. *)
Lemma deleteTag_skips_off_page_node :
  ("off-page" ∉ Mvp.page with_off_page_node)
  ∧ Mvp.registry (Mvp.deleteTag "urgent" with_off_page_node) !! "urgent" = None
  ∧ "urgent" ∈ Mvp.getNodeTags (Mvp.deleteTag "urgent" with_off_page_node) "off-page"
  ∧ Mvp.getNodeTags (Mvp.deleteTag "urgent" with_off_page_node) "1" = [].
Proof.
  split_and!.
  - simpl. intros Hin. apply list_elem_of_singleton in Hin. discriminate Hin.
  - vm_compute. reflexivity.
  - vm_compute. left.
  - vm_compute. reflexivity.
Qed.

(** C6, amended: deleting [t] again changes nothing; deleting a tag the
    registry does not have leaves the registry as it is; and after
    [deleteTag t] no node of the current page carries [t]. *)
Theorem deleteTag_idempotent (t : TagName) (st : Mvp.Figma) :
  Mvp.deleteTag t (Mvp.deleteTag t st) = Mvp.deleteTag t st
  ∧ (Mvp.registry st !! t = None → Mvp.registry (Mvp.deleteTag t st) = Mvp.registry st)
  ∧ (∀ n, n ∈ Mvp.page st → t ∉ Mvp.getNodeTags (Mvp.deleteTag t st) n).
Proof.
  destruct (deleteTag_frame t st) as [Hreg Hpage].
  split_and!.
  - rewrite (deleteTag_loop t (Mvp.deleteTag t st)).
    rewrite filter_none.
    + simpl. rewrite Hreg, delete_delete_eq, <- Hreg.
      by destruct (Mvp.deleteTag t st).
    + intros n Hn. apply deleteTag_strips. by rewrite <- Hpage.
  - intros Hnone. rewrite Hreg. by apply delete_id.
  - intros n. apply deleteTag_strips.
Qed.

Lemma deleteTag_idempotent_witness :
  Mvp.registry (Mvp.deleteTag "bug" two_nodes) = Mvp.registry two_nodes
  ∧ "bug" ∉ Mvp.getNodeTags (Mvp.deleteTag "bug" two_nodes) "2".
Proof.
  split.
  - apply (proj1 (proj2 (deleteTag_idempotent "bug" two_nodes))). reflexivity.
  - apply (proj2 (proj2 (deleteTag_idempotent "bug" two_nodes)) "2").
    simpl. right. left.
Defined.

(** ** Renaming a tag to itself *)

Lemma renameTagEverywhere_loop from to st :
  Mvp.renameTagEverywhere from to st
  = let st1 :=
      if JS.truthy (Mvp.registry st) from then
        Mvp.setRegistry
          (delete from
             (JS.assign (Mvp.registry st) to
                (spread (default no_meta (Mvp.registry st !! to))
                        (default no_meta (Mvp.registry st !! from))))) st
      else st in
    let nodes := filter (λ n, from ∈ Mvp.getNodeTags st n) (Mvp.page st) in
    (foldl (touch (fmap (λ t, if bool_decide (t = from) then to else t))) st1 nodes,
     length nodes).
Proof.
  unfold Mvp.renameTagEverywhere, Mvp.findAll, Mvp.getRegistry.
  assert (∀ st1, Mvp.page st1 = Mvp.page st → Mvp.pluginData st1 = Mvp.pluginData st →
            filter (λ n, JS.includes (Mvp.getNodeTags st1 n) from) (Mvp.page st1)
            = filter (λ n, from ∈ Mvp.getNodeTags st n) (Mvp.page st)) as Hnodes.
  { intros st1 -> Hd. apply list_filter_iff. intros n.
    unfold JS.includes, Mvp.getNodeTags. rewrite Hd. apply bool_decide_spec. }
  destruct (JS.truthy (Mvp.registry st) from); cbv zeta; rewrite Hnodes; done.
Qed.

(** [renameTagEverywhere] has no test of its own for equal names: called
    with [t] twice it removes the registry entry of [t] that it has just
    rewritten.  The program never calls it so, see
    [views_do_not_rename_to_itself]. *)
Lemma rename_to_itself_drops_entry (t : TagName) (st : Mvp.Figma) :
  is_Some (Mvp.registry st !! t) →
  Mvp.registry (Mvp.renameTagEverywhere t t st).1 !! t = None.
Proof.
  intros Hm. rewrite renameTagEverywhere_loop. unfold JS.truthy.
  rewrite bool_decide_eq_true_2 by done. simpl.
  match goal with |- Mvp.registry (foldl (touch ?g) ?s ?l) !! _ = _ =>
    destruct (loop_frame g s l) as (-> & _) end.
  simpl. apply lookup_delete_eq.
Qed.

Example rename_to_itself_drops_entry_ex :
  Mvp.registry (Mvp.renameTagEverywhere "bug" "bug" both_tagged).1 !! "bug" = None.
Proof. vm_compute. reflexivity. Qed.

Lemma loop_identity g l st :
  (∀ x, g x = x) →
  (∀ n, n ∈ l → ∃ tags, Mvp.pluginData st !! n = Some tags ∧ normalized tags) →
  Mvp.pluginData (foldl (touch g) st l) = Mvp.pluginData st.
Proof.
  intros Hg. revert st. induction l as [|n l IH]; intros st Hl; simpl; [done|].
  assert (Mvp.pluginData (touch g st n) = Mvp.pluginData st) as Hstep.
  { destruct (Hl n) as (tags & Htags & Hnorm); [by left|].
    unfold touch, Mvp.getNodeTags. simpl. rewrite Htags. simpl.
    rewrite Hg, stored_id by done. by apply insert_id. }
  rewrite IH, Hstep; [done|]. intros m Hm. rewrite Hstep. apply Hl. by right.
Qed.

(** The node half of the no-op holds on a store of normalized blobs. *)
Lemma rename_to_itself_keeps_tags (t : TagName) (st : Mvp.Figma) :
  store_normalized st →
  Mvp.pluginData (Mvp.renameTagEverywhere t t st).1 = Mvp.pluginData st.
Proof.
  intros Hst. rewrite renameTagEverywhere_loop. simpl.
  rewrite loop_identity.
  - by destruct (JS.truthy (Mvp.registry st) t).
  - intros x. rewrite <- (list_fmap_id x) at 2. apply list_fmap_ext.
    intros _ u _. by case_bool_decide.
  - intros n [Ht _]%list_elem_of_filter. unfold Mvp.getNodeTags in Ht.
    assert (Mvp.pluginData st !! n = None ∨ ∃ tags, Mvp.pluginData st !! n = Some tags)
      as [Hnone|[tags Htags]] by (destruct (Mvp.pluginData st !! n); eauto).
    + rewrite Hnone in Ht. by apply elem_of_nil in Ht.
    + exists tags. split; [by destruct (JS.truthy (Mvp.registry st) t)|by apply (Hst n)].
Qed.

(** Neither view sends such a rename. *)
Lemma views_do_not_rename_to_itself (registry : TagRegistry) (t : TagName) :
  MvpUi.renameBtn_onclick t (Some t) = None
  ∧ (∀ newName, JS.trim newName = t → View.handleRenameTag registry t newName = View.ignored).
Proof.
  split.
  - unfold MvpUi.renameBtn_onclick. rewrite bool_decide_eq_false_2; [done|tauto].
  - intros newName Htrim. unfold View.handleRenameTag.
    rewrite bool_decide_eq_true_2; [done|by right].
Qed.



(** ** The export codec *)

Lemma append_cons (c : ascii) (s t : string) : String c s +:+ t = String c (s +:+ t).
Proof. reflexivity. Qed.

Lemma read_quoted_doubled (s tail : string) :
  (∀ rest, tail ≠ String JS.dquote rest) →
  Csv.read_quoted (JS.double_quotes s +:+ String JS.dquote tail) = Some (s, tail).
Proof.
  intros Htail. induction s as [|c s IH].
  - change (Csv.read_quoted (String JS.dquote tail) = Some (EmptyString, tail)).
    cbn. destruct tail as [|d rest]; [done|].
    destruct (Ascii.eqb_spec d JS.dquote) as [->|]; [by destruct (Htail rest)|done].
  - cbn [JS.double_quotes]. destruct (Ascii.eqb_spec c JS.dquote) as [->|Hc].
    + rewrite !append_cons. cbn [Csv.read_quoted].
      rewrite Ascii.eqb_refl, IH. done.
    + rewrite append_cons. cbn [Csv.read_quoted].
      destruct (Ascii.eqb_spec c JS.dquote) as [|_]; [done|]. by rewrite IH.
Qed.

(** The name field of a row is read back as the name. *)
Lemma name_field_recoverable (name tail : string) :
  (∀ rest, tail ≠ String JS.dquote rest) →
  Csv.read_field (JS.quote +:+ JS.double_quotes name +:+ JS.quote +:+ tail)
  = Some (name, tail).
Proof.
  intros Htail.
  change (Csv.read_quoted (JS.double_quotes name +:+ String JS.dquote tail) = Some (name, tail)).
  by apply read_quoted_doubled.
Qed.

(** Scenario D: the export of the node named Say "hi". *)
Lemma export_scenario_D :
  View.exportToCSV {[ "1" := say_hi ]}
  = "nodeId,nodeName,nodeType,tags" +:+ JS.newline
    +:+ JS.quote +:+ "1" +:+ JS.quote +:+ ","
    +:+ JS.quote +:+ "Say " +:+ JS.quote +:+ JS.quote +:+ "hi" +:+ JS.quote +:+ JS.quote
    +:+ JS.quote +:+ ","
    +:+ JS.quote +:+ "text" +:+ JS.quote +:+ ","
    +:+ JS.quote +:+ "a" +:+ JS.quote.
Proof. vm_compute. reflexivity. Qed.

(** C7, as the codec has it: the tag field is the tags joined by a bar
    between two quotes, a double quote inside a tag staying single in both
    codecs, so that a CSV reader ends the field at it. *)
Theorem export_keeps_tag_quote_single :
  View.exportToCSV {[ "1" := quoted_tag ]}
  = "nodeId,nodeName,nodeType,tags" +:+ JS.newline
    +:+ JS.quote +:+ "1" +:+ JS.quote +:+ ","
    +:+ JS.quote +:+ "n" +:+ JS.quote +:+ ","
    +:+ JS.quote +:+ "text" +:+ JS.quote +:+ ","
    +:+ JS.quote +:+ "a" +:+ JS.quote +:+ "b" +:+ JS.quote
  ∧ Csv.read_field (JS.quote +:+ JS.join "|" (View.tags quoted_tag) +:+ JS.quote)
    = Some ("a", "b" +:+ JS.quote)
  ∧ Mvp.exportCSV (Mvp.mkFigma ∅ ["1"] {[ "1" := "n" ]} {[ "1" := View.tags quoted_tag ]} [])
    = "nodeId,nodeName,tags" +:+ JS.newline
      +:+ "1," +:+ JS.quote +:+ "n" +:+ JS.quote +:+ ","
      +:+ JS.quote +:+ "a" +:+ JS.quote +:+ "b" +:+ JS.quote.
Proof. split_and!; vm_compute; reflexivity. Qed.

(** ** Reading a missing or unparsable blob *)

(** The readers of the MVP and of [StorageManager] take a blob that is empty
    or that [JSON.parse] rejects for the empty registry, or the empty list. *)
Lemma mvp_blobs_read_as_empty (JSON_parse : string → option json) (raw : string) :
  raw = EmptyString ∨ JSON_parse raw = None →
  Blob.mvp_getRegistry JSON_parse raw = Returns (JObject [])
  ∧ Blob.mvp_getNodeTags JSON_parse raw = Returns (JArray [])
  ∧ Blob.StorageManager_getTagRegistry JSON_parse (Some raw) = Returns (JObject []).
Proof.
  unfold Blob.mvp_getRegistry, Blob.mvp_getNodeTags, Blob.StorageManager_getTagRegistry.
  intros [->|Hparse]; [done|]. rewrite Hparse. by case_bool_decide.
Qed.

Lemma mvp_blobs_never_throw (JSON_parse : string → option json) (raw : string) :
  Blob.mvp_getRegistry JSON_parse raw ≠ Throws_SyntaxError
  ∧ Blob.mvp_getNodeTags JSON_parse raw ≠ Throws_SyntaxError.
Proof.
  unfold Blob.mvp_getRegistry, Blob.mvp_getNodeTags.
  case_bool_decide; [done|]. by destruct (JSON_parse raw).
Qed.

Lemma sandbox_missing_blob_reads_as_empty (JSON_parse : string → option json) :
  Blob.getTagRegistry JSON_parse EmptyString = Returns (JObject [])
  ∧ Blob.getNodeTags JSON_parse EmptyString = Returns (JArray []).
Proof. done. Qed.

(** C8, as the sandbox code of the full variant has it: a blob that is set
    and that [JSON.parse] rejects makes [getTagRegistry] and [getNodeTags]
    raise the parser's error. *)
Theorem sandbox_unparsable_blob_throws (JSON_parse : string → option json) (raw : string) :
  raw ≠ EmptyString →
  JSON_parse raw = None →
  Blob.getTagRegistry JSON_parse raw = Throws_SyntaxError
  ∧ Blob.getNodeTags JSON_parse raw = Throws_SyntaxError.
Proof.
  intros Hraw Hparse. unfold Blob.getTagRegistry, Blob.getNodeTags.
  rewrite bool_decide_eq_false_2 by done. by rewrite Hparse.
Qed.

Lemma sandbox_unparsable_blob_throws_witness :
  Blob.getTagRegistry Blob.parse_tag_blob "{oops" = Throws_SyntaxError
  ∧ Blob.getNodeTags Blob.parse_tag_blob "{oops" = Throws_SyntaxError.
Proof.
  apply (sandbox_unparsable_blob_throws Blob.parse_tag_blob "{oops").
  - discriminate.
  - reflexivity.
Defined.

(** ** Normalized tag lists *)

Lemma foldl_preserves {A B} (P : A → Prop) (f : A → B → A) (l : list B) (a : A) :
  (∀ a b, P a → P (f a b)) → P a → P (foldl f a l).
Proof.
  intros Hf. revert a. induction l as [|b l IH]; intros a Ha; simpl; [done|].
  by apply IH, Hf.
Qed.

Lemma setNodeTags_store_normalized n tags st :
  store_normalized st → store_normalized (Mvp.setNodeTags n tags st).
Proof. apply (touch_store_normalized (λ _, tags)). Qed.

(** In the MVP every message of the view leaves a store of normalized blobs
    normalized: all writes go through [setNodeTags], which sorts and removes
    duplicates. *)
Lemma mvp_store_stays_normalized (msg : Mvp.Msg) (st : Mvp.Figma) :
  store_normalized st → store_normalized (Mvp.onmessage msg st).1.
Proof.
  intros Hst.
  destruct msg as [tag meta|tag|tags|tags|from to|into fromList|tag| |];
    cbn [Mvp.onmessage].
  - done.
  - cbn [fst]. rewrite deleteTag_loop. by apply loop_store_normalized.
  - rewrite addTagsToSelection_loop. cbn [fst]. by apply loop_store_normalized.
  - rewrite removeTagsFromSelection_loop. cbn [fst]. by apply loop_store_normalized.
  - rewrite renameTagEverywhere_loop. cbn [fst]. apply loop_store_normalized.
    by destruct (JS.truthy (Mvp.registry st) from).
  - unfold Mvp.mergeTags. cbn [fst].
    apply (foldl_preserves store_normalized); [|done].
    intros s n Hs. destruct (Mvp.mergedTagSet _ _ _) as [tags []]; [|done].
    by apply setNodeTags_store_normalized.
  - by case_bool_decide.
  - done.
  - done.
Qed.

(** A store built by the MVP from an empty page is normalized. *)
Lemma mvp_reachable_store_normalized (msgs : list Mvp.Msg) (st : Mvp.Figma) :
  Mvp.pluginData st = ∅ →
  store_normalized (foldl (λ st msg, (Mvp.onmessage msg st).1) st msgs).
Proof.
  intros Hempty. apply (foldl_preserves store_normalized).
  - intros s msg. apply mvp_store_stays_normalized.
  - intros n tags. rewrite Hempty. by rewrite lookup_empty.
Qed.

(** The sandbox of the full variant stores the array it is sent. *)
Lemma sandbox_stores_what_it_is_sent nodeId tags node (st : Sandbox.Figma) :
  Sandbox.nodes st !! nodeId = Some node →
  Sandbox.nodeTags (Sandbox.handleSetNodeTags nodeId tags st).1 !! nodeId = Some tags.
Proof.
  intros Hnode. unfold Sandbox.handleSetNodeTags. rewrite Hnode. simpl.
  apply lookup_insert_eq.
Qed.

(** The merge path of the same view sorts what it sends. *)
Lemma view_merge_sends_normalized (into : TagName) (fromList : list TagName)
    (nodes : View.NodeRegistry) (nodeId : NodeId) (tags : list TagName) :
  (nodeId, tags) ∈ (View.handleMergeTagsOnNodes into fromList nodes).1.2 →
  normalized tags.
Proof.
  unfold View.handleMergeTagsOnNodes.
  apply (foldl_preserves
           (λ acc : View.NodeRegistry * list (NodeId * list TagName) * nat,
              (nodeId, tags) ∈ acc.1.2 → normalized tags)).
  - intros [[newNodes posted] count] node Hacc. unfold View.mergeStep.
    destruct (existsb _ fromList); [|done]. simpl.
    intros [Hin|Hnew%list_elem_of_singleton]%elem_of_app; [by apply Hacc|].
    injection Hnew as _ ->. unfold View.mergedTags. split; [apply sort_Sorted|].
    apply sort_NoDup. unfold JS.Set_add. case_bool_decide as Hinto.
    + apply (foldl_preserves (NoDup (A:=string))); [|apply new_Set_NoDup].
      intros s f Hs. simpl. by apply NoDup_filter.
    + apply NoDup_app. split_and!; [| |apply NoDup_singleton].
      * apply (foldl_preserves (NoDup (A:=string))); [|apply new_Set_NoDup].
        intros s f Hs. simpl. by apply NoDup_filter.
      * intros x Hx ->%list_elem_of_singleton. done.
  - simpl. intros Hin. by apply elem_of_nil in Hin.
Qed.

(** C3, as the full variant has it: assigning tag a to the selected sticky
    tagged b makes the view send, and the sandbox store, the list b, a, which
    is not ascending. *)
Theorem assign_stores_unsorted_tags :
  View.handleBulkTagOperation View.add "a" ["1"] one_sticky_view
  = View.changed (<["1" := View.mkNode "1" "n" "sticky" ["b"; "a"]]> one_sticky_view, 1)
                 "Tagged 1 node(s)"
  ∧ View.handleNodesChange one_sticky_view
      (<["1" := View.mkNode "1" "n" "sticky" ["b"; "a"]]> one_sticky_view)
    = [("1", ["b"; "a"])]
  ∧ Sandbox.nodeTags (deliver [("1", ["b"; "a"])] one_sticky_sandbox) !! "1"
    = Some ["b"; "a"]
  ∧ ¬ normalized ["b"; "a"].
Proof.
  split_and!; [vm_compute; reflexivity..|].
  intros [Hsorted _]. inversion Hsorted as [|? ? _ Hhd]. inversion Hhd as [|? ? Hle].
  exact Hle.
Qed.

(** ** Creating a tag *)

Lemma spread_no_meta (m : TagMeta) : spread no_meta m = m.
Proof. destruct m as [[c|] [e|]]; reflexivity. Qed.


(** What [ensureTagInRegistry] makes of the registry, by what it finds
    under the name. *)
Lemma ensureTag_registry (tag : TagName) (meta : option TagMeta) (st : Mvp.Figma) :
  (Mvp.registry st !! tag = None →
   JS.inherited tag = false →
   Mvp.registry (Mvp.ensureTagInRegistry tag meta st)
   = <[tag := default no_meta meta]> (Mvp.registry st))
  ∧ (Mvp.registry st !! tag = None →
     JS.inherited tag = true →
     Mvp.registry (Mvp.ensureTagInRegistry tag meta st)
     = match meta with
       | Some m => JS.assign (Mvp.registry st) tag m
       | None => Mvp.registry st
       end)
  ∧ (∀ old, Mvp.registry st !! tag = Some old →
     Mvp.registry (Mvp.ensureTagInRegistry tag meta st)
     = match meta with
       | Some m => <[tag := spread old m]> (Mvp.registry st)
       | None => Mvp.registry st
       end).
Proof.
  unfold Mvp.ensureTagInRegistry, Mvp.getRegistry. simpl. split_and!.
  - intros Hnone Hinh. rewrite truthy_plain by done. simpl.
    pose proof (not_inherited_proto tag Hinh) as Hproto.
    rewrite (assign_insert (Mvp.registry st)) by auto.
    destruct meta as [m|]; simpl; [|done].
    rewrite assign_insert by auto.
    by rewrite lookup_insert_eq, insert_insert_eq, spread_no_meta.
  - intros Hnone Hinh. rewrite truthy_inherited by done. simpl.
    destruct meta as [m|]; [|done]. by rewrite Hnone, spread_no_meta.
  - intros old Hold. rewrite truthy_own by (by rewrite Hold). simpl.
    destruct meta as [m|]; [|done]. rewrite Hold. simpl.
    apply assign_insert. right. by rewrite Hold.
Qed.



(** ** Merging tags *)

(** C1, as the controller has it: in [mergeTags] the metadata of a source
    overrides what the target had (the colour of a, red before the merge, is
    blue after it), and a target that is also listed as a source loses its
    entry. *)
Theorem mergeTags_source_overrides_target :
  Mvp.registry red_and_blue !! "a" = Some (mkTagMeta (Some "red") None)
  ∧ Mvp.registry (Mvp.mergeTags "a" ["b"] red_and_blue).1 !! "a"
    = Some (mkTagMeta (Some "blue") (Some "x"))
  ∧ Mvp.registry (Mvp.mergeTags "a" ["a"] red_and_blue).1 !! "a" = None.
Proof. split_and!; vm_compute; reflexivity. Qed.

Lemma mvp_fold_keeps_absent (into : TagName) (l : list TagName) (reg : TagRegistry)
    (f : TagName) :
  f ≠ into → reg !! f = None → foldl (Mvp.foldMeta into) reg l !! f = None.
Proof.
  intros Hne. revert reg. induction l as [|g l IH]; intros reg Hf; simpl; [done|].
  apply IH. unfold Mvp.foldMeta. destruct (JS.truthy reg g); [|done].
  destruct (decide (g = f)) as [->|Hgf]; [apply lookup_delete_eq|].
  by rewrite lookup_delete_ne, assign_lookup_ne.
Qed.

(** What the controller does as the specification says: no listed tag other
    than the target keeps an entry. *)
Lemma mergeTags_deletes_sources (into f : TagName) (fromList : list TagName)
    (st : Mvp.Figma) :
  f ∈ fromList → f ≠ into → Mvp.registry (Mvp.mergeTags into fromList st).1 !! f = None.
Proof.
  intros Hin Hne. unfold Mvp.mergeTags. cbn [fst].
  apply (foldl_preserves (λ s, Mvp.registry s !! f = None)).
  { intros s n Hs. by destruct (Mvp.mergedTagSet _ _ _) as [tags []]. }
  unfold Mvp.getRegistry. simpl. generalize (Mvp.registry st). intros reg.
  revert reg. induction fromList as [|g l IH]; intros reg.
  - by apply elem_of_nil in Hin.
  - simpl. apply elem_of_cons in Hin as [<-|Hin]; [|by apply IH].
    apply mvp_fold_keeps_absent; [done|]. unfold Mvp.foldMeta.
    destruct (JS.truthy reg f) eqn:Hf; [apply lookup_delete_eq|].
    by apply truthy_false in Hf as [Hf _].
Qed.

(** The same holds of every registry: a field that the merged source has set
    ends up in the target, whatever the target had.  The one target that
    gets no entry is [__proto__] when the registry has none for it: the
    assignment then runs the inherited setter. *)
Lemma mergeTags_source_wins (into f : TagName) (mf : TagMeta) (st : Mvp.Figma) :
  f ≠ into →
  Mvp.registry st !! f = Some mf →
  (into ≠ "__proto__" ∨ is_Some (Mvp.registry st !! into) →
   Mvp.registry (Mvp.mergeTags into [f] st).1 !! into
   = Some (spread (default no_meta (Mvp.registry st !! into)) mf))
  ∧ (into = "__proto__" → Mvp.registry st !! into = None →
     Mvp.registry (Mvp.mergeTags into [f] st).1 !! into = None).
Proof.
  intros Hne Hf.
  assert (∀ v, foldl (Mvp.foldMeta into) (Mvp.registry st) [f] !! into = v →
               Mvp.registry (Mvp.mergeTags into [f] st).1 !! into = v) as Hloop.
  { intros v Hv. unfold Mvp.mergeTags. cbn [fst].
    apply (foldl_preserves (λ s, Mvp.registry s !! into = v)); [|done].
    intros s n Hs. by destruct (Mvp.mergedTagSet _ _ _) as [tags []]. }
  split.
  - intros Hinto. apply Hloop. simpl. unfold Mvp.foldMeta.
    rewrite truthy_own by (by rewrite Hf).
    by rewrite lookup_delete_ne, assign_lookup_eq, Hf.
  - intros -> Hnone. apply Hloop. simpl. unfold Mvp.foldMeta.
    rewrite truthy_own by (by rewrite Hf).
    by rewrite lookup_delete_ne, assign_setter.
Qed.

(** The metadata loop of the view's [handleMergeTags]. *)
Section ViewMerge.
Context (into : TagName).
Context (field : TagMeta → option string).
Hypothesis field_spread : ∀ a b,
  field (spread a b) = match field b with Some v => Some v | None => field a end.

Lemma first_set_skips (φ1 φ2 : TagName → option TagMeta) (l : list TagName) :
  (∀ f, f ∈ l → f ≠ into →
     φ1 f = φ2 f ∨ (φ1 f = None ∧ ∃ m, φ2 f = Some m ∧ field m = None)) →
  first_set field (sources into φ1 l) = first_set field (sources into φ2 l).
Proof.
  unfold sources. induction l as [|f l IH]; intros Hl; [done|].
  assert (first_set field (sources into φ1 l) = first_set field (sources into φ2 l)) as IH'.
  { apply IH. intros g Hg. apply Hl. by right. }
  unfold sources in IH'. cbn [omap list_omap]. case_bool_decide as Hf; [done|].
  destruct (Hl f) as [Heq|(Hnone & m & Hsome & Hm)]; [by left|done| |].
  - rewrite Heq. destruct (φ2 f) as [m|]; [|done]. cbn [first_set]. by rewrite IH'.
  - rewrite Hnone, Hsome. cbn [first_set]. by rewrite Hm.
Qed.

Lemma view_fold_keeps_absent (l : list TagName) (reg : TagRegistry) (f : TagName) :
  f ≠ into → reg !! f = None → foldl (View.foldMeta into) reg l !! f = None.
Proof.
  intros Hne. revert reg. induction l as [|g l IH]; intros reg Hf; simpl; [done|].
  apply IH. unfold View.foldMeta.
  destruct (JS.truthy reg g && bool_decide (g ≠ into)); [|done].
  destruct (decide (g = f)) as [->|Hgf]; [apply lookup_delete_eq|].
  by rewrite lookup_delete_ne, assign_lookup_ne.
Qed.

Lemma view_fold_deletes (l : list TagName) (reg : TagRegistry) (f : TagName) :
  f ∈ l → f ≠ into → foldl (View.foldMeta into) reg l !! f = None.
Proof.
  intros Hin Hne. revert reg. induction l as [|g l IH]; intros reg.
  - by apply elem_of_nil in Hin.
  - simpl. apply elem_of_cons in Hin as [<-|Hin]; [|by apply IH].
    apply view_fold_keeps_absent; [done|]. unfold View.foldMeta.
    rewrite (bool_decide_eq_true_2 _ Hne), andb_true_r.
    destruct (JS.truthy reg f) eqn:Hf; [apply lookup_delete_eq|].
    by apply truthy_false in Hf as [Hf _].
Qed.

Lemma view_fold_into (l : list TagName) (reg : TagRegistry) (m : TagMeta) :
  reg !! into = Some m →
  ∃ m', foldl (View.foldMeta into) reg l !! into = Some m'
        ∧ field m' = first_set field (m :: sources into (λ f, reg !! f) l).
Proof.
  revert reg m. induction l as [|f l IH]; intros reg m Hinto.
  - exists m. split; [done|]. cbn. by destruct (field m).
  - cbn [foldl]. unfold View.foldMeta at 2.
    destruct (decide (f = into)) as [->|Hne].
    { rewrite (bool_decide_eq_false_2 (into ≠ into)) by tauto. rewrite andb_false_r.
      destruct (IH reg m Hinto) as (m' & Hm' & Hfield).
      exists m'. split; [done|]. rewrite Hfield.
      unfold sources at 2. cbn [omap list_omap]. by rewrite bool_decide_eq_true_2. }
    rewrite (bool_decide_eq_true_2 _ Hne), andb_true_r.
    rewrite Hinto. change (default no_meta (Some m)) with m.
    rewrite assign_insert by (right; by rewrite Hinto).
    destruct (reg !! f) as [mf|] eqn:Hf.
    + rewrite truthy_own by (by rewrite Hf). change (default no_meta (Some mf)) with mf.
      destruct (IH (delete f (<[into := spread mf m]> reg)) (spread mf m))
        as (m' & Hm' & Hfield).
      { by rewrite lookup_delete_ne, lookup_insert_eq. }
      exists m'. split; [done|]. rewrite Hfield.
      unfold sources at 2. cbn [omap list_omap].
      rewrite bool_decide_eq_false_2, Hf by done.
      fold (sources into (λ f, reg !! f) l).
      cbn [first_set]. rewrite field_spread.
      destruct (field m) as [v|]; [done|].
      destruct (field mf) as [v|] eqn:Hmf; [done|].
      apply first_set_skips. intros g Hg Hgi.
      destruct (decide (g = f)) as [->|Hgf].
      * right. split; [apply lookup_delete_eq|]. by exists mf.
      * left. by rewrite lookup_delete_ne, lookup_insert_ne.
    + assert (first_set field (m :: sources into (λ g, reg !! g) (f :: l))
              = first_set field (m :: sources into (λ g, reg !! g) l)) as Hskip.
      { unfold sources. cbn [omap list_omap]. rewrite Hf. by case_bool_decide. }
      rewrite Hskip. destruct (JS.truthy reg f); [|by apply IH].
      change (default no_meta None) with no_meta. rewrite spread_no_meta.
      destruct (IH (delete f (<[into := m]> reg)) m) as (m' & Hm' & Hfield).
      { by rewrite lookup_delete_ne, lookup_insert_eq. }
      exists m'. split; [done|]. rewrite Hfield. cbn [first_set].
      destruct (field m) as [v|]; [done|].
      apply first_set_skips. intros g Hg Hgi. left.
      destruct (decide (g = f)) as [->|Hgf].
      * by rewrite lookup_delete_eq.
      * by rewrite lookup_delete_ne, lookup_insert_ne.
Qed.

Lemma view_fold_nothing (l : list TagName) (reg : TagRegistry) :
  (∀ f, f ∈ l → f ≠ into → JS.truthy reg f = false) →
  foldl (View.foldMeta into) reg l = reg.
Proof.
  induction l as [|f l IH]; intros Hl; [done|]. cbn [foldl].
  assert (View.foldMeta into reg f = reg) as ->.
  { unfold View.foldMeta. destruct (decide (f = into)) as [->|Hne].
    - rewrite (bool_decide_eq_false_2 (into ≠ into)) by tauto. by rewrite andb_false_r.
    - rewrite (Hl f); [done|by left|done]. }
  apply IH. intros g Hg. apply Hl. by right.
Qed.
End ViewMerge.

(** The view's [handleMergeTags] does fold as the specification says: no
    listed tag other than the target keeps an entry; a target that has an
    entry, or whose name no object inherits, has one afterwards, and each of
    its fields is the one it had when set, else the first one set among the
    listed entries.  For a target that has no entry and whose name every
    object inherits the test before the loop creates none, and the registry
    is handed on as it was when no listed tag is present or inherited. *)
Lemma view_merge_folds_metadata (into : TagName) (fromTags : list TagName)
    (registry : TagRegistry) :
  (∀ f, f ∈ fromTags → f ≠ into → View.mergeRegistry into fromTags registry !! f = None)
  ∧ (JS.inherited into = false ∨ is_Some (registry !! into) →
     ∃ m, View.mergeRegistry into fromTags registry !! into = Some m
          ∧ color m = first_set color (default no_meta (registry !! into)
                                       :: sources into (λ f, registry !! f) fromTags)
          ∧ emoji m = first_set emoji (default no_meta (registry !! into)
                                       :: sources into (λ f, registry !! f) fromTags))
  ∧ (JS.inherited into = true → registry !! into = None →
     (∀ f, f ∈ fromTags → f ≠ into → JS.truthy registry f = false) →
     View.mergeRegistry into fromTags registry = registry).
Proof.
  unfold View.mergeRegistry. split_and!.
  - intros f Hf Hne. by apply view_fold_deletes.
  - intros Hinh.
    set (newRegistry := if negb (JS.truthy registry into) then _ else _).
    assert (newRegistry !! into = Some (default no_meta (registry !! into))) as Hinto.
    { subst newRegistry. destruct (JS.truthy registry into) eqn:Ht; simpl.
      - destruct Hinh as [Hinh|[m Hm]]; [|by rewrite Hm].
        apply truthy_cases in Ht as [[m Hm]|Ht]; [by rewrite Hm|congruence].
      - apply truthy_false in Ht as [Hnone Hplain]. rewrite Hnone.
        apply assign_lookup_eq. left. by apply not_inherited_proto. }
    assert (∀ f, f ≠ into → newRegistry !! f = registry !! f) as Hother.
    { intros f Hf. subst newRegistry. destruct (JS.truthy registry into); [done|].
      simpl. by rewrite assign_lookup_ne. }
    assert (∀ field, first_set field (sources into (λ f, newRegistry !! f) fromTags)
                     = first_set field (sources into (λ f, registry !! f) fromTags)) as Hsrc.
    { intros field. apply first_set_skips. intros f _ Hf. left. by apply Hother. }
    destruct (view_fold_into into color (λ _ _, eq_refl) fromTags newRegistry _ Hinto)
      as (m & Hm & Hcolor).
    destruct (view_fold_into into emoji (λ _ _, eq_refl) fromTags newRegistry _ Hinto)
      as (m2 & Hm2 & Hemoji).
    rewrite Hm in Hm2. injection Hm2 as <-.
    exists m. split; [done|]. cbn [first_set] in *.
    rewrite Hcolor, Hemoji, !Hsrc. done.
  - intros Hinh Hnone Hl. rewrite truthy_inherited by done. simpl.
    by apply view_fold_nothing.
Qed.

(** * Further properties of the code *)

(** ** Normalized lists are determined by their members *)

Lemma normalized_ext (a b : list TagName) :
  normalized a → normalized b → (∀ t, t ∈ a ↔ t ∈ b) → a = b.
Proof.
  intros [Hsa Hna] [Hsb Hnb] Hab.
  apply (Sorted_unique String.le); [done|done|]. by apply NoDup_Permutation.
Qed.

Lemma Figma_ext (s1 s2 : Mvp.Figma) :
  Mvp.registry s1 = Mvp.registry s2 → Mvp.page s1 = Mvp.page s2 →
  Mvp.nodeName s1 = Mvp.nodeName s2 → Mvp.pluginData s1 = Mvp.pluginData s2 →
  Mvp.selection s1 = Mvp.selection s2 → s1 = s2.
Proof. destruct s1, s2. simpl. by intros -> -> -> -> ->. Qed.

Section IdempotentLoops.
Context (g : list TagName → list TagName).
Hypothesis g_idem : ∀ x,
  JS.sort (JS.new_Set (g (JS.sort (JS.new_Set (g x))))) = JS.sort (JS.new_Set (g x)).

(** A node that the loop visits ends with its tags rewritten once. *)
Lemma loop_data_in st l n :
  n ∈ l →
  Mvp.pluginData (foldl (touch g) st l) !! n
  = Some (JS.sort (JS.new_Set (g (Mvp.getNodeTags st n)))).
Proof.
  revert st. induction l as [|m l IH] using rev_ind; intros st Hn.
  - by apply elem_of_nil in Hn.
  - rewrite foldl_snoc. destruct (decide (m = n)) as [->|Hne].
    + unfold touch at 1. simpl. rewrite lookup_insert_eq. f_equal.
      destruct (decide (n ∈ l)) as [Hin|Hnotin].
      * unfold Mvp.getNodeTags at 1. rewrite IH by done. simpl. apply g_idem.
      * unfold Mvp.getNodeTags. by rewrite loop_data_notin.
    + rewrite touch_data_ne by done. apply IH.
      apply elem_of_app in Hn as [Hn|Hn%list_elem_of_singleton]; [done|congruence].
Qed.

Lemma loop_idempotent st l :
  foldl (touch g) (foldl (touch g) st l) l = foldl (touch g) st l.
Proof.
  destruct (loop_frame g (foldl (touch g) st l) l) as (Hr & Hp & Hn & Hs).
  apply Figma_ext; try done.
  apply map_eq. intros n. destruct (decide (n ∈ l)) as [Hin|Hnotin].
  - rewrite !loop_data_in by done. f_equal. unfold Mvp.getNodeTags at 1.
    rewrite loop_data_in by done. simpl. apply g_idem.
  - by rewrite !loop_data_notin.
Qed.
End IdempotentLoops.

(** ** Assignment to the selection *)

Lemma added_elem (tags x : list TagName) (t : TagName) :
  t ∈ JS.sort (JS.new_Set (JS.new_Set (x ++ tags))) ↔ t ∈ x ∨ t ∈ tags.
Proof. by rewrite stored_elem, new_Set_elem, elem_of_app. Qed.

Lemma added_idem (tags x : list TagName) :
  JS.sort (JS.new_Set (JS.new_Set (JS.sort (JS.new_Set (JS.new_Set (x ++ tags))) ++ tags)))
  = JS.sort (JS.new_Set (JS.new_Set (x ++ tags))).
Proof.
  apply normalized_ext; [apply stored_normalized..|].
  intros t. rewrite !added_elem. tauto.
Qed.

Lemma removed_idem (tags x : list TagName) :
  JS.sort (JS.new_Set (filter (λ t, negb (JS.includes tags t))
     (JS.sort (JS.new_Set (filter (λ t, negb (JS.includes tags t)) x)))))
  = JS.sort (JS.new_Set (filter (λ t, negb (JS.includes tags t)) x)).
Proof.
  apply normalized_ext; [apply stored_normalized..|].
  intros t. rewrite !removed_elem. tauto.
Qed.

(** [addTagsToSelection] is a set union on every selected node, stored
    normalized; nodes outside the selection keep their blob. *)
Theorem addTags_is_set_union (tags : list TagName) (st : Mvp.Figma) (n : NodeId) :
  (n ∈ Mvp.selection st →
     normalized (Mvp.getNodeTags (Mvp.addTagsToSelection tags st).1 n)
     ∧ ∀ t, t ∈ Mvp.getNodeTags (Mvp.addTagsToSelection tags st).1 n
            ↔ t ∈ Mvp.getNodeTags st n ∨ t ∈ tags)
  ∧ (n ∉ Mvp.selection st →
     Mvp.pluginData (Mvp.addTagsToSelection tags st).1 !! n = Mvp.pluginData st !! n).
Proof.
  rewrite addTagsToSelection_loop. cbn [fst]. split.
  - intros Hn.
    assert (Mvp.getNodeTags
              (foldl (touch (λ current, JS.new_Set (current ++ tags))) st (Mvp.selection st)) n
            = JS.sort (JS.new_Set (JS.new_Set (Mvp.getNodeTags st n ++ tags)))) as ->.
    { unfold Mvp.getNodeTags at 1.
      by rewrite (loop_data_in _ (added_idem tags)). }
    split; [apply stored_normalized|]. intros t. apply added_elem.
  - intros Hn. by apply loop_data_notin.
Qed.

Lemma addTags_is_set_union_witness :
  (normalized (Mvp.getNodeTags (Mvp.addTagsToSelection ["c"; "a"] two_nodes).1 "1")
   ∧ ∀ t, t ∈ Mvp.getNodeTags (Mvp.addTagsToSelection ["c"; "a"] two_nodes).1 "1"
          ↔ t ∈ Mvp.getNodeTags two_nodes "1" ∨ t ∈ ["c"; "a"])
  ∧ Mvp.pluginData (Mvp.addTagsToSelection ["c"; "a"] two_nodes).1 !! "2"
    = Mvp.pluginData two_nodes !! "2".
Proof.
  split.
  - apply (proj1 (addTags_is_set_union ["c"; "a"] two_nodes "1")).
    simpl. left.
  - apply (proj2 (addTags_is_set_union ["c"; "a"] two_nodes "2")).
    simpl. intros Hin. apply list_elem_of_singleton in Hin. discriminate Hin.
Defined.

(** Assigning, or removing, the same tags a second time changes nothing and
    reports the same count. *)
Theorem selection_operations_idempotent (tags : list TagName) (st : Mvp.Figma) :
  Mvp.addTagsToSelection tags (Mvp.addTagsToSelection tags st).1
  = Mvp.addTagsToSelection tags st
  ∧ Mvp.removeTagsFromSelection tags (Mvp.removeTagsFromSelection tags st).1
    = Mvp.removeTagsFromSelection tags st.
Proof.
  rewrite !addTagsToSelection_loop, !removeTagsFromSelection_loop. cbn [fst].
  split.
  - destruct (loop_frame (λ current, JS.new_Set (current ++ tags)) st (Mvp.selection st))
      as (_ & _ & _ & ->).
    f_equal. apply (loop_idempotent _ (added_idem tags)).
  - destruct (loop_frame (λ current, filter (λ t, negb (JS.includes tags t)) current)
                st (Mvp.selection st)) as (_ & _ & _ & ->).
    f_equal. apply (loop_idempotent _ (removed_idem tags)).
Qed.

(** ** Renaming everywhere *)

Lemma renamed_elem (from to : TagName) (x : list TagName) (t : TagName) :
  t ∈ JS.sort (JS.new_Set ((λ u, if bool_decide (u = from) then to else u) <$> x))
  ↔ (t = to ∧ from ∈ x) ∨ (t ∈ x ∧ t ≠ from).
Proof.
  rewrite stored_elem, list_elem_of_fmap. split.
  - intros (y & -> & Hy). case_bool_decide as Hyf; [subst y; by left|by right].
  - intros [[-> Hin]|[Hin Hne]].
    + exists from. by rewrite bool_decide_eq_true_2.
    + exists t. by rewrite bool_decide_eq_false_2.
Qed.

Lemma renamed_idem (from to : TagName) (x : list TagName) :
  JS.sort (JS.new_Set ((λ u, if bool_decide (u = from) then to else u) <$>
     JS.sort (JS.new_Set ((λ u, if bool_decide (u = from) then to else u) <$> x))))
  = JS.sort (JS.new_Set ((λ u, if bool_decide (u = from) then to else u) <$> x)).
Proof.
  apply normalized_ext; [apply stored_normalized..|].
  intros t. rewrite !renamed_elem. destruct (decide (from = to)) as [Heq|Hne]; intuition congruence.
Qed.

Lemma spread_empty (m : TagMeta) : spread m no_meta = m.
Proof. by destruct m. Qed.

(** The registry half of [renameTagEverywhere] for distinct names.  When
    [from] has an entry, the entry goes, [to] gets the metadata of [from]
    laid over what [to] had (unless [to] is [__proto__] without entry, which
    the assignment does not create) and every other entry stays.  When
    [from] has no entry the registry is left alone, unless [from] is a name
    every object inherits: the test then passes, and [to] is assigned what it
    had, or the empty metadata. *)
Theorem rename_moves_registry_entry (from to : TagName) (st : Mvp.Figma) :
  from ≠ to →
  (∀ mfrom, Mvp.registry st !! from = Some mfrom →
     Mvp.registry (Mvp.renameTagEverywhere from to st).1 !! from = None
     ∧ (to ≠ "__proto__" ∨ is_Some (Mvp.registry st !! to) →
        Mvp.registry (Mvp.renameTagEverywhere from to st).1 !! to
        = Some (spread (default no_meta (Mvp.registry st !! to)) mfrom))
     ∧ ∀ k, k ≠ from → k ≠ to →
         Mvp.registry (Mvp.renameTagEverywhere from to st).1 !! k = Mvp.registry st !! k)
  ∧ (Mvp.registry st !! from = None → JS.inherited from = false →
     Mvp.registry (Mvp.renameTagEverywhere from to st).1 = Mvp.registry st)
  ∧ (Mvp.registry st !! from = None → JS.inherited from = true →
     Mvp.registry (Mvp.renameTagEverywhere from to st).1
     = JS.assign (Mvp.registry st) to (default no_meta (Mvp.registry st !! to))).
Proof.
  intros Hne. rewrite renameTagEverywhere_loop. cbn [fst].
  match goal with |- context [foldl (touch ?g) ?s ?l] =>
    destruct (loop_frame g s l) as (-> & _) end.
  split_and!.
  - intros mfrom Hfrom. rewrite truthy_own by (by rewrite Hfrom). rewrite Hfrom.
    simpl. split_and!.
    + apply lookup_delete_eq.
    + intros Hto. by rewrite lookup_delete_ne, assign_lookup_eq.
    + intros k Hkf Hkt. by rewrite lookup_delete_ne, assign_lookup_ne.
  - intros Hnone Hplain. by rewrite truthy_plain.
  - intros Hnone Hinh. rewrite truthy_inherited by done. rewrite Hnone. simpl.
    rewrite spread_empty. apply delete_id. by rewrite assign_lookup_ne.
Qed.

Lemma rename_moves_registry_entry_witness :
  (Mvp.registry (Mvp.renameTagEverywhere "b" "a" red_and_blue).1 !! "b" = None
   ∧ (("a" : string) ≠ "__proto__" ∨ is_Some (Mvp.registry red_and_blue !! "a") →
      Mvp.registry (Mvp.renameTagEverywhere "b" "a" red_and_blue).1 !! "a"
      = Some (spread (default no_meta (Mvp.registry red_and_blue !! "a"))
                     (mkTagMeta (Some "blue") (Some "x"))))
   ∧ ∀ k, k ≠ "b" → k ≠ "a" →
       Mvp.registry (Mvp.renameTagEverywhere "b" "a" red_and_blue).1 !! k
       = Mvp.registry red_and_blue !! k)
  ∧ Mvp.registry (Mvp.renameTagEverywhere "zzz" "a" red_and_blue).1
    = Mvp.registry red_and_blue
  ∧ Mvp.registry (Mvp.renameTagEverywhere "toString" "zzz" red_and_blue).1
    = JS.assign (Mvp.registry red_and_blue) "zzz"
        (default no_meta (Mvp.registry red_and_blue !! "zzz")).
Proof.
  split; [|split].
  - apply (proj1 (rename_moves_registry_entry "b" "a" red_and_blue ltac:(discriminate))).
    reflexivity.
  - apply (proj1 (proj2 (rename_moves_registry_entry "zzz" "a" red_and_blue
                           ltac:(discriminate)))); reflexivity.
  - apply (proj2 (proj2 (rename_moves_registry_entry "toString" "zzz" red_and_blue
                           ltac:(discriminate)))); reflexivity.
Defined.

(** The node half: a node of the page that carries [from] ends with [to] in
    its place, normalized; every other blob is left alone; the count is the
    number of nodes of the page that carried [from]. *)
Theorem rename_rewrites_nodes (from to : TagName) (st : Mvp.Figma) (n : NodeId) :
  (n ∈ Mvp.page st → from ∈ Mvp.getNodeTags st n →
     normalized (Mvp.getNodeTags (Mvp.renameTagEverywhere from to st).1 n)
     ∧ ∀ t, t ∈ Mvp.getNodeTags (Mvp.renameTagEverywhere from to st).1 n
            ↔ t = to ∨ (t ∈ Mvp.getNodeTags st n ∧ t ≠ from))
  ∧ (n ∉ Mvp.page st ∨ from ∉ Mvp.getNodeTags st n →
     Mvp.pluginData (Mvp.renameTagEverywhere from to st).1 !! n = Mvp.pluginData st !! n)
  ∧ (Mvp.renameTagEverywhere from to st).2
    = length (filter (λ n, from ∈ Mvp.getNodeTags st n) (Mvp.page st)).
Proof.
  rewrite renameTagEverywhere_loop. cbn [fst snd].
  set (st1 := if JS.truthy (Mvp.registry st) from then _ else _).
  assert (Mvp.pluginData st1 = Mvp.pluginData st) as Hd.
  { subst st1. by destruct (JS.truthy (Mvp.registry st) from). }
  split_and!; [| |done].
  - intros Hpage Hfrom.
    match goal with |- context [foldl (touch ?g) ?s ?l] =>
      assert (Mvp.getNodeTags (foldl (touch g) s l) n
              = JS.sort (JS.new_Set (g (Mvp.getNodeTags st n)))) as -> end.
    { unfold Mvp.getNodeTags at 1. rewrite (loop_data_in _ (renamed_idem from to)).
      - unfold Mvp.getNodeTags. by rewrite Hd.
      - by apply list_elem_of_filter. }
    split; [apply stored_normalized|]. intros t. rewrite renamed_elem. intuition congruence.
  - intros Hn. rewrite loop_data_notin; [by rewrite Hd|].
    rewrite list_elem_of_filter. tauto.
Qed.

Lemma rename_rewrites_nodes_witness :
  (normalized (Mvp.getNodeTags (Mvp.renameTagEverywhere "urgent" "asap" two_nodes).1 "2")
   ∧ ∀ t, t ∈ Mvp.getNodeTags (Mvp.renameTagEverywhere "urgent" "asap" two_nodes).1 "2"
          ↔ t = "asap" ∨ (t ∈ Mvp.getNodeTags two_nodes "2" ∧ t ≠ "urgent"))
  ∧ Mvp.pluginData (Mvp.renameTagEverywhere "urgent" "asap" two_nodes).1 !! "9"
    = Mvp.pluginData two_nodes !! "9".
Proof.
  split.
  - apply (proj1 (rename_rewrites_nodes "urgent" "asap" two_nodes "2")).
    + simpl. right. left.
    + vm_compute. right. left.
  - apply (proj1 (proj2 (rename_rewrites_nodes "urgent" "asap" two_nodes "9"))).
    left. simpl. intros Hin. apply elem_of_cons in Hin as [Hin|Hin]; [discriminate Hin|].
    apply list_elem_of_singleton in Hin. discriminate Hin.
Defined.

(** ** Merging on the nodes *)

Section ConditionalLoops.
Context (g : list TagName → option (list TagName)).

Lemma visit_tags_eq st n :
  Mvp.getNodeTags (visit g st n) n = visited g (Mvp.getNodeTags st n).
Proof.
  unfold visit, visited. destruct (g (Mvp.getNodeTags st n)); [|done].
  unfold Mvp.getNodeTags. simpl. by rewrite lookup_insert_eq.
Qed.

Lemma visit_data_ne st n m :
  n ≠ m → Mvp.pluginData (visit g st n) !! m = Mvp.pluginData st !! m.
Proof.
  intros Hne. unfold visit. destruct (g (Mvp.getNodeTags st n)); [|done].
  simpl. by rewrite lookup_insert_ne.
Qed.

Lemma visit_frame st l :
  Mvp.registry (foldl (visit g) st l) = Mvp.registry st
  ∧ Mvp.page (foldl (visit g) st l) = Mvp.page st
  ∧ Mvp.nodeName (foldl (visit g) st l) = Mvp.nodeName st
  ∧ Mvp.selection (foldl (visit g) st l) = Mvp.selection st.
Proof.
  revert st. induction l as [|n l IH]; intros st; simpl; [done|].
  destruct (IH (visit g st n)) as (-> & -> & -> & ->).
  unfold visit. by destruct (g (Mvp.getNodeTags st n)).
Qed.

Lemma visit_loop_notin st l n :
  n ∉ l → Mvp.pluginData (foldl (visit g) st l) !! n = Mvp.pluginData st !! n.
Proof.
  revert st. induction l as [|m l IH]; intros st Hn; simpl; [done|].
  apply not_elem_of_cons in Hn as [Hne Hn].
  rewrite IH by done. by apply visit_data_ne.
Qed.

Lemma visit_loop_inv (R : list TagName → Prop) st l n :
  (∀ x, R x → R (visited g x)) →
  R (Mvp.getNodeTags st n) → R (Mvp.getNodeTags (foldl (visit g) st l) n).
Proof.
  intros Hstep. revert st. induction l as [|m l IH]; intros st HR; simpl; [done|].
  apply IH. destruct (decide (m = n)) as [->|Hne].
  - rewrite visit_tags_eq. by apply Hstep.
  - unfold Mvp.getNodeTags. by rewrite visit_data_ne.
Qed.

Lemma visit_loop_last (R P : list TagName → Prop) st l n :
  (∀ x, R x → R (visited g x)) →
  (∀ x, R x → P (visited g x)) →
  R (Mvp.getNodeTags st n) → n ∈ l →
  P (Mvp.getNodeTags (foldl (visit g) st l) n).
Proof.
  intros HR HP. revert st. induction l as [|m l IH] using rev_ind; intros st Hst Hn.
  - by apply elem_of_nil in Hn.
  - rewrite foldl_snoc. destruct (decide (m = n)) as [->|Hne].
    + rewrite visit_tags_eq. apply HP. by apply visit_loop_inv.
    + unfold Mvp.getNodeTags. rewrite visit_data_ne by done. apply IH; [done|].
      apply elem_of_app in Hn as [Hn|Hn%list_elem_of_singleton]; [done|congruence].
Qed.
End ConditionalLoops.

Lemma foldl_fun_ext {A B} (f g : A → B → A) (l : list B) (a : A) :
  (∀ a b, f a b = g a b) → foldl f a l = foldl g a l.
Proof.
  intros Hfg. revert a. induction l as [|b l IH]; intros a; simpl; [done|].
  by rewrite Hfg, IH.
Qed.

(** The loop over the listed tags of [mergedTagSet]. *)
Lemma delete_loop (fromList : list TagName) (tags0 : list TagName) (c0 : bool) :
  let r := foldl (λ '(tags, changed) f,
                    let '(tags', was) := JS.Set_delete tags f in
                    (tags', if was then true else changed))
                 (tags0, c0) fromList in
  (∀ t, t ∈ r.1 ↔ t ∈ tags0 ∧ t ∉ fromList)
  ∧ (r.2 = true ↔ c0 = true ∨ ∃ f, f ∈ fromList ∧ f ∈ tags0).
Proof.
  revert tags0 c0. induction fromList as [|f l IH]; intros tags0 c0; simpl.
  - split.
    + intros t. rewrite elem_of_nil. tauto.
    + split; [by left|]. intros [?|(f & Hf & _)]; [done|by apply elem_of_nil in Hf].
  - destruct (IH (filter (λ y, y ≠ f) tags0)
                 (if bool_decide (f ∈ tags0) then true else c0)) as [Hmem Hch].
    split.
    + intros t. rewrite Hmem, list_elem_of_filter, not_elem_of_cons. tauto.
    + rewrite Hch. split.
      * intros [Hc|(f' & Hf' & Hin)].
        -- case_bool_decide as Hf; [|by left]. right. exists f. split; [by left|done].
        -- apply list_elem_of_filter in Hin as [_ Hin]. right. exists f'.
           split; [by right|done].
      * intros [Hc|(f' & Hf' & Hin)].
        -- left. by case_bool_decide.
        -- destruct (decide (f' = f)) as [->|Hne].
           ++ left. by rewrite bool_decide_eq_true_2.
           ++ right. exists f'. apply elem_of_cons in Hf' as [?|Hf']; [done|].
              split; [done|]. by apply list_elem_of_filter.
Qed.

Lemma mergeWrite_spec (into : TagName) (fromList current : list TagName) :
  (mergeWrite into fromList current = None ↔ ¬ ∃ f, f ∈ fromList ∧ f ∈ current)
  ∧ ∀ tags, mergeWrite into fromList current = Some tags →
      (∃ f, f ∈ fromList ∧ f ∈ current)
      ∧ ∀ t, t ∈ tags ↔ t = into ∨ (t ∈ current ∧ t ∉ fromList).
Proof.
  unfold mergeWrite, Mvp.mergedTagSet.
  destruct (delete_loop fromList (JS.new_Set current) false) as [Hmem Hch].
  simpl in Hmem, Hch.
  destruct (foldl _ (JS.new_Set current, false) fromList) as [tags changed].
  simpl in Hmem, Hch.
  assert (changed = true ↔ ∃ f, f ∈ fromList ∧ f ∈ current) as Hch'.
  { rewrite Hch. split.
    - intros [?|(f & Hf & Hin)]; [done|]. exists f. split; [done|by apply new_Set_elem].
    - intros (f & Hf & Hin). right. exists f. split; [done|by apply new_Set_elem]. }
  split.
  - destruct changed; split; try done.
    + intros Hno. destruct Hno. by apply Hch'.
    + intros _ Hex. apply Hch' in Hex. done.
  - intros tags' Hw. destruct changed; [|done]. injection Hw as <-.
    split; [by apply Hch'|]. intros t. unfold JS.Set_add.
    case_bool_decide as Hinto.
    + rewrite Hmem, new_Set_elem. split; [tauto|].
      intros [->|?]; [|done]. by rewrite <- new_Set_elem, <- Hmem.
    + rewrite elem_of_app, list_elem_of_singleton, Hmem, new_Set_elem. tauto.
Qed.

Lemma mergeTags_loop (into : TagName) (fromList : list TagName) (st : Mvp.Figma) :
  Mvp.mergeTags into fromList st
  = let st1 := Mvp.setRegistry (foldl (Mvp.foldMeta into) (Mvp.registry st) fromList) st in
    let nodes :=
      filter (λ n, Exists (λ f, f ∈ Mvp.getNodeTags st n) fromList) (Mvp.page st) in
    (foldl (visit (mergeWrite into fromList)) st1 nodes, length nodes).
Proof.
  unfold Mvp.mergeTags, Mvp.findAll, Mvp.getRegistry. cbv zeta.
  assert (filter (λ n, existsb (λ f, JS.includes
                     (Mvp.getNodeTags
                        (Mvp.setRegistry (foldl (Mvp.foldMeta into) (Mvp.registry st) fromList) st)
                        n) f) fromList)
                 (Mvp.page (Mvp.setRegistry
                              (foldl (Mvp.foldMeta into) (Mvp.registry st) fromList) st))
          = filter (λ n, Exists (λ f, f ∈ Mvp.getNodeTags st n) fromList) (Mvp.page st))
    as ->.
  { apply list_filter_iff. intros n. rewrite existb_True.
    apply Exists_proper; [|done]. intros f. unfold JS.includes.
    apply bool_decide_spec. }
  f_equal. apply foldl_fun_ext. intros s n. unfold visit, mergeWrite.
  by destruct (Mvp.mergedTagSet into fromList (Mvp.getNodeTags s n)) as [tags []].
Qed.

(** The node half of [mergeTags]: a node of the page that carries a listed
    tag ends, normalized, with the target and its tags that are not listed;
    every other blob is left alone; the count is the number of nodes of the
    page that carried a listed tag. *)
Theorem mergeTags_rewrites_nodes (into : TagName) (fromList : list TagName)
    (st : Mvp.Figma) (n : NodeId) :
  (n ∈ Mvp.page st → (∃ f, f ∈ fromList ∧ f ∈ Mvp.getNodeTags st n) →
     normalized (Mvp.getNodeTags (Mvp.mergeTags into fromList st).1 n)
     ∧ ∀ t, t ∈ Mvp.getNodeTags (Mvp.mergeTags into fromList st).1 n
            ↔ t = into ∨ (t ∈ Mvp.getNodeTags st n ∧ t ∉ fromList))
  ∧ (n ∉ Mvp.page st ∨ (∀ f, f ∈ fromList → f ∉ Mvp.getNodeTags st n) →
     Mvp.pluginData (Mvp.mergeTags into fromList st).1 !! n = Mvp.pluginData st !! n)
  ∧ (Mvp.mergeTags into fromList st).2
    = length (filter (λ n, Exists (λ f, f ∈ Mvp.getNodeTags st n) fromList) (Mvp.page st)).
Proof.
  rewrite mergeTags_loop. cbn [fst snd]. split_and!; [| |done].
  - intros Hpage Hcarries.
    set (orig := Mvp.getNodeTags st n).
    set (P := λ x : list TagName,
           normalized x ∧ ∀ t, t ∈ x ↔ t = into ∨ (t ∈ orig ∧ t ∉ fromList)).
    assert (∀ x, x = orig ∨ P x → P (visited (mergeWrite into fromList) x)) as Hstep.
    { intros x Hx. unfold visited.
      destruct (mergeWrite_spec into fromList x) as [Hnone Hsome].
      destruct (mergeWrite into fromList x) as [tags|] eqn:Hw.
      - destruct (Hsome tags eq_refl) as [_ Htags].
        split; [apply stored_normalized|]. intros t. rewrite stored_elem, Htags.
        destruct Hx as [->|[_ Hx]]; [done|]. rewrite Hx.
        split; [tauto|]. intros [->|[Ht Hnot]]; [by left|]. right. tauto.
      - destruct Hx as [->|Hx]; [|done]. destruct (proj1 Hnone eq_refl). done. }
    apply (visit_loop_last _ (λ x, x = orig ∨ P x) P).
    + intros x Hx. right. by apply Hstep.
    + done.
    + by left.
    + apply list_elem_of_filter. split; [|done]. apply Exists_exists.
      destruct Hcarries as (f & Hf & Hin). by exists f.
  - intros Hn. rewrite visit_loop_notin; [done|].
    rewrite list_elem_of_filter, Exists_exists. intros [(f & Hf & Hin) Hpage].
    destruct Hn as [Hn|Hn]; [done|]. by apply (Hn f).
Qed.

Lemma mergeTags_rewrites_nodes_witness :
  (normalized (Mvp.getNodeTags (Mvp.mergeTags "triage" ["urgent"; "bug"] two_nodes).1 "2")
   ∧ ∀ t, t ∈ Mvp.getNodeTags (Mvp.mergeTags "triage" ["urgent"; "bug"] two_nodes).1 "2"
          ↔ t = "triage" ∨ (t ∈ Mvp.getNodeTags two_nodes "2" ∧ t ∉ ["urgent"; "bug"]))
  ∧ Mvp.pluginData (Mvp.mergeTags "triage" ["x"] two_nodes).1 !! "1"
    = Mvp.pluginData two_nodes !! "1".
Proof.
  split.
  - apply (proj1 (mergeTags_rewrites_nodes "triage" ["urgent"; "bug"] two_nodes "2")).
    + simpl. right. left.
    + exists "bug". split; [right; left|vm_compute; left].
  - apply (proj1 (proj2 (mergeTags_rewrites_nodes "triage" ["x"] two_nodes "1"))).
    right. intros f Hf. apply list_elem_of_singleton in Hf. subst f.
    vm_compute. intros Hin. apply list_elem_of_singleton in Hin. discriminate Hin.
Defined.

Lemma mergeTags_deletes_sources_witness :
  Mvp.registry (Mvp.mergeTags "a" ["b"; "a"] red_and_blue).1 !! "b" = None.
Proof.
  apply (mergeTags_deletes_sources "a" "b" ["b"; "a"] red_and_blue).
  - left.
  - discriminate.
Defined.

(** ** What deleting leaves alone *)

Lemma deleted_elem (t : TagName) (x : list TagName) (u : TagName) :
  u ∈ JS.sort (JS.new_Set (filter (λ v, v ≠ t) x)) ↔ u ∈ x ∧ u ≠ t.
Proof. rewrite stored_elem, list_elem_of_filter. tauto. Qed.

Lemma deleted_idem (t : TagName) (x : list TagName) :
  JS.sort (JS.new_Set (filter (λ v, v ≠ t) (JS.sort (JS.new_Set (filter (λ v, v ≠ t) x)))))
  = JS.sort (JS.new_Set (filter (λ v, v ≠ t) x)).
Proof.
  apply normalized_ext; [apply stored_normalized..|].
  intros u. rewrite !deleted_elem. tauto.
Qed.

(** [deleteTag t] strips [t] and nothing else: every node keeps its other
    tags, a node that did not carry [t] keeps its blob as it was, and every
    other registry entry stays. *)
Theorem deleteTag_only_strips (t : TagName) (st : Mvp.Figma) (n : NodeId) :
  (∀ u, u ≠ t →
     u ∈ Mvp.getNodeTags (Mvp.deleteTag t st) n ↔ u ∈ Mvp.getNodeTags st n)
  ∧ (t ∉ Mvp.getNodeTags st n →
     Mvp.pluginData (Mvp.deleteTag t st) !! n = Mvp.pluginData st !! n)
  ∧ (∀ k, k ≠ t → Mvp.registry (Mvp.deleteTag t st) !! k = Mvp.registry st !! k).
Proof.
  split_and!.
  - intros u Hu. rewrite deleteTag_loop.
    destruct (decide (n ∈ filter (λ n, t ∈ Mvp.getNodeTags st n) (Mvp.page st)))
      as [Hin|Hnotin].
    + unfold Mvp.getNodeTags at 1. rewrite (loop_data_in _ (deleted_idem t)) by done.
      simpl. rewrite deleted_elem. unfold Mvp.getNodeTags. simpl. tauto.
    + unfold Mvp.getNodeTags. by rewrite loop_data_notin.
  - intros Ht. rewrite deleteTag_loop. rewrite loop_data_notin; [done|].
    rewrite list_elem_of_filter. tauto.
  - intros k Hk. rewrite (proj1 (deleteTag_frame t st)). by apply lookup_delete_ne.
Qed.

Lemma deleteTag_only_strips_witness :
  ("bug" ∈ Mvp.getNodeTags (Mvp.deleteTag "urgent" two_nodes) "2"
   ↔ "bug" ∈ Mvp.getNodeTags two_nodes "2")
  ∧ Mvp.pluginData (Mvp.deleteTag "bug" two_nodes) !! "1" = Mvp.pluginData two_nodes !! "1"
  ∧ Mvp.registry (Mvp.deleteTag "bug" two_nodes) !! "urgent"
    = Mvp.registry two_nodes !! "urgent".
Proof.
  split_and!.
  - apply (proj1 (deleteTag_only_strips "urgent" two_nodes "2") "bug"). discriminate.
  - apply (proj1 (proj2 (deleteTag_only_strips "bug" two_nodes "1"))).
    vm_compute. intros Hin. apply list_elem_of_singleton in Hin. discriminate Hin.
  - apply (proj2 (proj2 (deleteTag_only_strips "bug" two_nodes "1")) "urgent"). discriminate.
Defined.

(** ** Tags that are nowhere *)

Lemma foldMeta_absent (into : TagName) (fromList : list TagName) (reg : TagRegistry) :
  (∀ f, f ∈ fromList → JS.truthy reg f = false) →
  foldl (Mvp.foldMeta into) reg fromList = reg.
Proof.
  induction fromList as [|f l IH]; intros Habs; simpl; [done|].
  unfold Mvp.foldMeta at 2. rewrite (Habs f) by (by left).
  apply IH. intros f' Hf'. apply Habs. by right.
Qed.

Lemma setRegistry_same (st : Mvp.Figma) : Mvp.setRegistry (Mvp.registry st) st = st.
Proof. by destruct st. Qed.

(** Deleting a tag that has no registry entry and that no node of the page
    carries changes nothing; so does renaming it, and merging a list of such
    tags, with count 0, when the names are not among those every object
    inherits; in particular such a merge does not create the target. *)
Theorem unknown_tags_are_no_ops :
  (∀ (t : TagName) (st : Mvp.Figma),
     Mvp.registry st !! t = None →
     (∀ n, n ∈ Mvp.page st → t ∉ Mvp.getNodeTags st n) →
     Mvp.deleteTag t st = st
     ∧ (JS.inherited t = false → ∀ to, Mvp.renameTagEverywhere t to st = (st, 0)))
  ∧ (∀ (into : TagName) (fromList : list TagName) (st : Mvp.Figma),
       (∀ f, f ∈ fromList → Mvp.registry st !! f = None ∧ JS.inherited f = false) →
       (∀ f n, f ∈ fromList → n ∈ Mvp.page st → f ∉ Mvp.getNodeTags st n) →
       Mvp.mergeTags into fromList st = (st, 0)).
Proof.
  split.
  - intros t st Hreg Hnodes.
    assert (filter (λ n, t ∈ Mvp.getNodeTags st n) (Mvp.page st) = []) as Hnone.
    { apply filter_none. intros n Hn. by apply Hnodes. }
    split.
    + rewrite deleteTag_loop, Hnone. simpl. rewrite delete_id by done.
      apply setRegistry_same.
    + intros Hplain to. rewrite renameTagEverywhere_loop. cbv zeta.
      by rewrite Hnone, truthy_plain.
  - intros into fromList st Hreg Hnodes. rewrite mergeTags_loop. cbv zeta.
    rewrite filter_none.
    + simpl. rewrite foldMeta_absent; [by rewrite setRegistry_same|].
      intros f Hf. destruct (Hreg f Hf). by apply truthy_plain.
    + intros n Hn (f & Hf & Hin)%Exists_exists. by apply (Hnodes f n).
Qed.

Lemma unknown_tags_are_no_ops_witness :
  (Mvp.deleteTag "zzz" two_nodes = two_nodes
   ∧ (JS.inherited "zzz" = false →
      ∀ to, Mvp.renameTagEverywhere "zzz" to two_nodes = (two_nodes, 0)))
  ∧ Mvp.mergeTags "triage" ["zzz"] two_nodes = (two_nodes, 0).
Proof.
  split.
  - apply (proj1 unknown_tags_are_no_ops "zzz" two_nodes); [reflexivity|].
    intros n Hn. apply elem_of_cons in Hn as [->|Hn];
      [|apply list_elem_of_singleton in Hn as ->]; vm_compute; intros Hin.
    + apply list_elem_of_singleton in Hin. discriminate Hin.
    + apply elem_of_cons in Hin as [Hin|Hin]; [discriminate Hin|].
      apply list_elem_of_singleton in Hin. discriminate Hin.
  - apply (proj2 unknown_tags_are_no_ops "triage" ["zzz"] two_nodes).
    + intros f Hf. apply list_elem_of_singleton in Hf as ->. split; reflexivity.
    + intros f n Hf Hn. apply list_elem_of_singleton in Hf as ->.
      apply elem_of_cons in Hn as [->|Hn];
        [|apply list_elem_of_singleton in Hn as ->]; vm_compute; intros Hin.
      * apply list_elem_of_singleton in Hin. discriminate Hin.
      * apply elem_of_cons in Hin as [Hin|Hin]; [discriminate Hin|].
        apply list_elem_of_singleton in Hin. discriminate Hin.
Defined.

(** ** Creating twice *)

Lemma spread_idem (a m : TagMeta) : spread (spread a m) m = spread a m.
Proof. destruct a as [[?|] [?|]], m as [[?|] [?|]]; reflexivity. Qed.

Lemma spread_self (m : TagMeta) : spread m m = m.
Proof. destruct m as [[?|] [?|]]; reflexivity. Qed.

(** The [create-tag] message is idempotent, and it touches the registry
    only.  Afterwards the registry has an entry for the tag, when it had one
    or when the name is not among those every object inherits; for such a
    name without entry and without metadata given nothing is stored. *)
Theorem ensureTag_idempotent (tag : TagName) (meta : option TagMeta) (st : Mvp.Figma) :
  Mvp.ensureTagInRegistry tag meta (Mvp.ensureTagInRegistry tag meta st)
  = Mvp.ensureTagInRegistry tag meta st
  ∧ Mvp.pluginData (Mvp.ensureTagInRegistry tag meta st) = Mvp.pluginData st
  ∧ (JS.inherited tag = false ∨ is_Some (Mvp.registry st !! tag) →
     is_Some (Mvp.registry (Mvp.ensureTagInRegistry tag meta st) !! tag))
  ∧ (JS.inherited tag = true → Mvp.registry st !! tag = None →
     Mvp.ensureTagInRegistry tag None st = st).
Proof.
  destruct (ensureTag_registry tag meta st) as (Hplain & Hinh & Hown).
  split_and!.
  - set (st' := Mvp.ensureTagInRegistry tag meta st) in *.
    assert (Mvp.registry (Mvp.ensureTagInRegistry tag meta st') = Mvp.registry st') as Hreg.
    { destruct (ensureTag_registry tag meta st') as (_ & Hinh' & Hown').
      assert (∀ v, Mvp.registry st' = <[tag := v]> (Mvp.registry st) →
                   (∀ m, meta = Some m → spread v m = v) →
                   Mvp.registry (Mvp.ensureTagInRegistry tag meta st') = Mvp.registry st')
        as Hstored.
      { intros v Hst' Hv. rewrite (Hown' v) by (rewrite Hst'; apply lookup_insert_eq).
        destruct meta as [m|]; [|done].
        by rewrite Hst', insert_insert_eq, (Hv m). }
      destruct (Mvp.registry st !! tag) as [old|] eqn:Hold.
      - specialize (Hown old eq_refl). destruct meta as [m|].
        + apply (Hstored (spread old m)); [done|]. intros ? [= <-]. apply spread_idem.
        + apply (Hown' old). by rewrite Hown.
      - destruct (JS.inherited tag) eqn:Htag.
        + specialize (Hinh eq_refl eq_refl). destruct meta as [m|].
          * destruct (decide (tag = "__proto__")) as [->|Hproto].
            -- rewrite assign_setter in Hinh by done.
               rewrite (Hinh' ltac:(by rewrite Hinh) eq_refl), Hinh.
               by apply assign_setter.
            -- rewrite assign_insert in Hinh by auto.
               apply (Hstored m); [done|]. intros ? [= <-]. apply spread_self.
          * by rewrite (Hinh' ltac:(by rewrite Hinh) eq_refl).
        + specialize (Hplain eq_refl eq_refl).
          apply (Hstored (default no_meta meta)); [done|].
          intros m ->. apply spread_self. }
    apply Figma_ext; [|done..]. by rewrite Hreg.
  - done.
  - intros [Htag|[old Hold]].
    + destruct (Mvp.registry st !! tag) as [old|] eqn:Hold.
      * rewrite (Hown old eq_refl). destruct meta as [m|]; [|by rewrite Hold].
        rewrite lookup_insert_eq. by eexists.
      * rewrite (Hplain eq_refl Htag), lookup_insert_eq. by eexists.
    + rewrite (Hown old Hold). destruct meta as [m|]; [|by rewrite Hold].
      rewrite lookup_insert_eq. by eexists.
  - intros Htag Hnone.
    apply Figma_ext; [|done..].
    by rewrite (proj1 (proj2 (ensureTag_registry tag None st)) Hnone Htag).
Qed.

Lemma ensureTag_idempotent_witness :
  is_Some (Mvp.registry (Mvp.ensureTagInRegistry "urgent" None scenario_B) !! "urgent")
  ∧ Mvp.ensureTagInRegistry "constructor" None scenario_B = scenario_B.
Proof.
  split.
  - apply (proj1 (proj2 (proj2 (ensureTag_idempotent "urgent" None scenario_B)))).
    left. reflexivity.
  - apply (proj2 (proj2 (proj2 (ensureTag_idempotent "constructor" None scenario_B))));
      reflexivity.
Defined.

(** ** What a message of the view cannot reach *)

(** No message changes the page or the names of its nodes, and none writes
    the blob of a node that is neither on the page nor selected. *)
Theorem messages_reach_page_and_selection_only (msg : Mvp.Msg) (st : Mvp.Figma) :
  Mvp.page (Mvp.onmessage msg st).1 = Mvp.page st
  ∧ Mvp.nodeName (Mvp.onmessage msg st).1 = Mvp.nodeName st
  ∧ ∀ n, n ∉ Mvp.page st → n ∉ Mvp.selection st →
      Mvp.pluginData (Mvp.onmessage msg st).1 !! n = Mvp.pluginData st !! n.
Proof.
  destruct msg as [tag meta|tag|tags|tags|from to|into fromList|tag| |];
    cbn [Mvp.onmessage].
  - done.
  - cbn [fst]. rewrite deleteTag_loop.
    match goal with |- context [foldl (touch ?g) ?s ?l] =>
      destruct (loop_frame g s l) as (_ & -> & -> & _) end.
    split_and!; [done..|]. intros n Hp _. rewrite loop_data_notin; [done|].
    rewrite list_elem_of_filter. tauto.
  - rewrite addTagsToSelection_loop. cbn [fst].
    match goal with |- context [foldl (touch ?g) ?s ?l] =>
      destruct (loop_frame g s l) as (_ & -> & -> & _) end.
    split_and!; [done..|]. intros n _ Hs. by rewrite loop_data_notin.
  - rewrite removeTagsFromSelection_loop. cbn [fst].
    match goal with |- context [foldl (touch ?g) ?s ?l] =>
      destruct (loop_frame g s l) as (_ & -> & -> & _) end.
    split_and!; [done..|]. intros n _ Hs. by rewrite loop_data_notin.
  - rewrite renameTagEverywhere_loop. cbn [fst].
    match goal with |- context [foldl (touch ?g) ?s ?l] =>
      destruct (loop_frame g s l) as (_ & -> & -> & _) end.
    split_and!; [by destruct (JS.truthy (Mvp.registry st) from)..|].
    intros n Hp _. rewrite loop_data_notin.
    + by destruct (JS.truthy (Mvp.registry st) from).
    + rewrite list_elem_of_filter. tauto.
  - rewrite mergeTags_loop. cbn [fst].
    match goal with |- context [foldl (visit ?g) ?s ?l] =>
      destruct (visit_frame g s l) as (_ & -> & -> & _) end.
    split_and!; [done..|]. intros n Hp _. rewrite visit_loop_notin; [done|].
    rewrite list_elem_of_filter. tauto.
  - by case_bool_decide.
  - done.
  - done.
Qed.

Lemma messages_reach_page_and_selection_only_witness :
  Mvp.pluginData (Mvp.onmessage (Mvp.delete_tag "urgent") with_off_page_node).1 !! "off-page"
  = Mvp.pluginData with_off_page_node !! "off-page".
Proof.
  apply (proj2 (proj2 (messages_reach_page_and_selection_only
                         (Mvp.delete_tag "urgent") with_off_page_node)) "off-page").
  - simpl. intros Hin. apply list_elem_of_singleton in Hin. discriminate Hin.
  - simpl. apply not_elem_of_nil.
Defined.

(** Assigning and removing tags, finding and exporting never write the
    registry: a tag assigned without having been created stays without an
    entry. *)
Theorem tagging_never_writes_registry (tags : list TagName) (tag : TagName)
    (st : Mvp.Figma) :
  Mvp.registry (Mvp.onmessage (Mvp.assign_tags_to_selection tags) st).1 = Mvp.registry st
  ∧ Mvp.registry (Mvp.onmessage (Mvp.remove_tags_from_selection tags) st).1 = Mvp.registry st
  ∧ Mvp.registry (Mvp.onmessage (Mvp.filter_by_tag tag) st).1 = Mvp.registry st
  ∧ Mvp.registry (Mvp.onmessage Mvp.export_csv st).1 = Mvp.registry st.
Proof.
  cbn [Mvp.onmessage].
  rewrite addTagsToSelection_loop, removeTagsFromSelection_loop. cbn [fst].
  split_and!.
  - apply loop_frame.
  - apply loop_frame.
  - by case_bool_decide.
  - done.
Qed.

Lemma mvp_reachable_store_normalized_witness :
  store_normalized
    (foldl (λ st msg, (Mvp.onmessage msg st).1)
           fresh_page
           [Mvp.assign_tags_to_selection ["b"; "a"; "b"]; Mvp.rename_tag "a" "c"]).
Proof.
  apply (mvp_reachable_store_normalized
           [Mvp.assign_tags_to_selection ["b"; "a"; "b"]; Mvp.rename_tag "a" "c"]
           fresh_page).
  reflexivity.
Defined.

Lemma mvp_blobs_read_as_empty_witness :
  Blob.mvp_getRegistry Blob.parse_tag_blob "{oops" = Returns (JObject [])
  ∧ Blob.mvp_getNodeTags Blob.parse_tag_blob "{oops" = Returns (JArray [])
  ∧ Blob.StorageManager_getTagRegistry Blob.parse_tag_blob (Some "{oops")
    = Returns (JObject []).
Proof.
  apply (mvp_blobs_read_as_empty Blob.parse_tag_blob "{oops").
  right. reflexivity.
Defined.

(** ** The loops of the view over the selected ids *)

Section StepAt.
Context (upd : View.FigJamNode → option View.FigJamNode).

Lemma stepAt_lookup_ne acc nodeId k :
  nodeId ≠ k → (stepAt upd acc nodeId).1 !! k = acc.1 !! k.
Proof.
  intros Hne. unfold stepAt. destruct (acc.1 !! nodeId) as [node|]; [|done].
  destruct (upd node); [|done]. simpl. by rewrite lookup_insert_ne.
Qed.

Lemma stepAt_lookup_eq acc k node :
  acc.1 !! k = Some node →
  (stepAt upd acc k).1 !! k = Some (default node (upd node)).
Proof.
  intros Hk. unfold stepAt. rewrite Hk. destruct (upd node); simpl; [|done].
  by rewrite lookup_insert_eq.
Qed.

Lemma stepAt_lookup_None acc nodeId k :
  acc.1 !! k = None → (stepAt upd acc nodeId).1 !! k = None.
Proof.
  intros Hk. destruct (decide (nodeId = k)) as [->|Hne].
  - unfold stepAt. by rewrite Hk.
  - by rewrite stepAt_lookup_ne.
Qed.

Lemma stepAt_loop_notin acc sel k :
  k ∉ sel → (foldl (stepAt upd) acc sel).1 !! k = acc.1 !! k.
Proof.
  revert acc. induction sel as [|i sel IH]; intros acc Hk; simpl; [done|].
  apply not_elem_of_cons in Hk as [Hne Hk]. rewrite IH by done.
  by apply stepAt_lookup_ne.
Qed.

(** The loop keeps the node under [k] within [R], when [upd] does. *)
Lemma stepAt_loop_inv (R : View.FigJamNode → Prop) acc sel k node :
  (∀ x x', R x → upd x = Some x' → R x') →
  acc.1 !! k = Some node → R node →
  ∃ node', (foldl (stepAt upd) acc sel).1 !! k = Some node' ∧ R node'.
Proof.
  intros HR. revert acc node. induction sel as [|i sel IH]; intros acc node Hk Hnode; simpl.
  - by exists node.
  - destruct (decide (i = k)) as [->|Hne].
    + apply (IH _ (default node (upd node))); [by apply stepAt_lookup_eq|].
      destruct (upd node) as [x'|] eqn:Hupd; simpl; [by apply (HR node)|done].
    + apply (IH _ node); [|done]. by rewrite stepAt_lookup_ne.
Qed.

(** After the loop, the node under a selected [k] is as [upd] leaves it. *)
Lemma stepAt_loop_last (R P : View.FigJamNode → Prop) acc sel k node :
  (∀ x x', R x → upd x = Some x' → R x') →
  (∀ x x', R x → upd x = Some x' → P x') →
  (∀ x, R x → upd x = None → P x) →
  acc.1 !! k = Some node → R node → k ∈ sel →
  ∃ node', (foldl (stepAt upd) acc sel).1 !! k = Some node' ∧ P node'.
Proof.
  intros HR HP HP0. revert acc node.
  induction sel as [|i sel IH] using rev_ind; intros acc node Hk Hnode Hin.
  - by apply elem_of_nil in Hin.
  - rewrite foldl_snoc. destruct (decide (i = k)) as [->|Hne].
    + destruct (stepAt_loop_inv R acc sel k node HR Hk Hnode) as (x & Hx & HRx).
      exists (default x (upd x)). split; [by apply stepAt_lookup_eq|].
      destruct (upd x) as [x'|] eqn:Hupd; simpl; [by apply (HP x)|by apply HP0].
    + rewrite stepAt_lookup_ne by done. apply (IH acc node); [done|done|].
      apply elem_of_app in Hin as [Hin|Hin%list_elem_of_singleton]; [done|congruence].
Qed.

(** The loop neither adds a node nor drops one. *)
Lemma stepAt_loop_dom acc sel k :
  is_Some ((foldl (stepAt upd) acc sel).1 !! k) ↔ is_Some (acc.1 !! k).
Proof.
  revert acc. induction sel as [|i sel IH]; intros acc; simpl; [done|].
  rewrite IH. destruct (acc.1 !! k) as [node|] eqn:Hk.
  - destruct (decide (i = k)) as [->|Hne].
    + erewrite stepAt_lookup_eq by done. split; by eexists.
    + rewrite stepAt_lookup_ne, Hk by done. done.
  - by rewrite stepAt_lookup_None.
Qed.

Lemma stepAt_count_le acc sel :
  ((foldl (stepAt upd) acc sel).2 ≤ acc.2 + length sel)%nat.
Proof.
  revert acc. induction sel as [|i sel IH]; intros acc; simpl; [lia|].
  etrans; [apply IH|]. unfold stepAt. destruct (acc.1 !! i) as [node|]; [|lia].
  destruct (upd node); simpl; lia.
Qed.

(** When [upd] always yields a node, the count is the number of selected ids
    that are known. *)
Lemma stepAt_count_known acc sel :
  (∀ x, is_Some (upd x)) →
  (foldl (stepAt upd) acc sel).2
  = (acc.2 + length (filter (λ i, is_Some (acc.1 !! i)) sel))%nat.
Proof.
  intros Htotal. revert acc. induction sel as [|i sel IH]; intros acc; simpl; [lia|].
  rewrite IH.
  assert (filter (λ j, is_Some ((stepAt upd acc i).1 !! j)) sel
          = filter (λ j, is_Some (acc.1 !! j)) sel) as ->.
  { apply list_filter_iff. intros j.
    apply (stepAt_loop_dom acc [i] j). }
  unfold stepAt. destruct (acc.1 !! i) as [node|] eqn:Hi.
  - destruct (Htotal node) as [x' ->]. simpl.
    rewrite filter_cons_True by (by rewrite Hi). simpl. lia.
  - rewrite filter_cons_False; [done|]. rewrite Hi. by intros [? ?].
Qed.

(** Where [upd] yields nothing for the selected nodes, the loop is the
    identity. *)
Lemma stepAt_loop_id acc sel :
  (∀ k node, k ∈ sel → acc.1 !! k = Some node → upd node = None) →
  foldl (stepAt upd) acc sel = acc.
Proof.
  induction sel as [|i sel IH]; intros Hnone; simpl; [done|].
  assert (stepAt upd acc i = acc) as ->.
  { unfold stepAt. destruct (acc.1 !! i) as [node|] eqn:Hi; [|done].
    by rewrite (Hnone i node) by (done || by left). }
  apply IH. intros k node Hk. apply Hnone. by right.
Qed.
End StepAt.

Lemma bulkStep_stepAt (mode : View.Mode) (tags : list TagName) acc nodeId :
  View.bulkStep mode tags acc nodeId
  = stepAt (λ node,
       Some (View.mkNode (View.id node) (View.name node) (View.type node)
               match mode with
               | View.add => JS.new_Set (View.tags node ++ tags)
               | View.remove => filter (λ tag, negb (JS.includes tags tag)) (View.tags node)
               end)) acc nodeId.
Proof. destruct acc as [newNodes count]. unfold View.bulkStep, stepAt. simpl. done. Qed.

(** SelectionTagger's bulk operation never makes up a node for an id it
    does not know and never drops one; it counts the selected ids that it
    knows; it leaves the nodes that are not selected alone; and on a
    selected node it changes the tags only, to the union with the tags typed
    (add) or to those not typed (remove). *)
Theorem bulk_operation_on_known_nodes (mode : View.Mode) (tagInput : string)
    (sel : list NodeId) (nodes newNodes : View.NodeRegistry) (count : nat) (toast : string) :
  View.handleBulkTagOperation mode tagInput sel nodes = View.changed (newNodes, count) toast →
  (∀ k, is_Some (newNodes !! k) ↔ is_Some (nodes !! k))
  ∧ count = length (filter (λ i, is_Some (nodes !! i)) sel)
  ∧ (∀ k, k ∉ sel → newNodes !! k = nodes !! k)
  ∧ (∀ k node, k ∈ sel → nodes !! k = Some node →
       ∃ node', newNodes !! k = Some node'
         ∧ View.id node' = View.id node ∧ View.name node' = View.name node
         ∧ View.type node' = View.type node
         ∧ ∀ t, t ∈ View.tags node'
                ↔ match mode with
                  | View.add => t ∈ View.tags node ∨ t ∈ JS.tag_list_of_input tagInput
                  | View.remove => t ∈ View.tags node ∧ t ∉ JS.tag_list_of_input tagInput
                  end).
Proof.
  unfold View.handleBulkTagOperation. case_bool_decide; [done|].
  case_bool_decide; [done|]. cbv zeta. intros Hres. injection Hres as Hres _.
  set (tags := JS.tag_list_of_input tagInput) in *.
  rewrite (foldl_fun_ext _ _ _ _ (bulkStep_stepAt mode tags)) in Hres.
  set (upd := λ node, Some _) in Hres.
  assert (newNodes = (foldl (stepAt upd) (nodes, 0) sel).1) as -> by (by rewrite Hres).
  assert (count = (foldl (stepAt upd) (nodes, 0) sel).2) as -> by (by rewrite Hres).
  clear Hres. split_and!.
  - intros k. apply (stepAt_loop_dom upd (nodes, 0)).
  - rewrite stepAt_count_known; [done|]. intros x. by eexists.
  - intros k Hk. by apply (stepAt_loop_notin upd (nodes, 0)).
  - intros k node Hk Hnode.
    set (Q := λ x : View.FigJamNode,
           View.id x = View.id node ∧ View.name x = View.name node
           ∧ View.type x = View.type node).
    set (T := λ x : View.FigJamNode, ∀ t, t ∈ View.tags x
           ↔ match mode with
             | View.add => t ∈ View.tags node ∨ t ∈ tags
             | View.remove => t ∈ View.tags node ∧ t ∉ tags
             end).
    assert (∀ x x', Q x ∧ (x = node ∨ T x) → upd x = Some x' → Q x' ∧ T x') as Hstep.
    { intros x x' [HQ Hx] [= <-]. split; [done|]. intros t. simpl.
      unfold JS.includes. destruct mode.
      - rewrite new_Set_elem, elem_of_app. destruct Hx as [->|Hx]; [done|].
        rewrite (Hx t). tauto.
      - rewrite list_elem_of_filter, negb_True, bool_decide_spec.
        destruct Hx as [->|Hx]; [tauto|]. rewrite (Hx t). tauto. }
    destruct (stepAt_loop_last upd (λ x, Q x ∧ (x = node ∨ T x)) (λ x, Q x ∧ T x)
                (nodes, 0) sel k node) as (node' & Hnode' & [HQ HT]).
    + intros x x' Hx Hupd. destruct (Hstep x x' Hx Hupd). tauto.
    + done.
    + intros x _ Hupd. discriminate Hupd.
    + done.
    + split; [done|by left].
    + done.
    + exists node'. destruct HQ as (? & ? & ?). done.
Qed.

Lemma bulk_operation_on_known_nodes_witness :
  (∀ k, is_Some ((<["1" := View.mkNode "1" "n" "sticky" ["b"; "a"]]> one_sticky_view) !! k)
        ↔ is_Some (one_sticky_view !! k))
  ∧ 1 = length (filter (λ i, is_Some (one_sticky_view !! i)) ["1"; "ghost"]).
Proof.
  assert (View.handleBulkTagOperation View.add "a" ["1"; "ghost"] one_sticky_view
          = View.changed (<["1" := View.mkNode "1" "n" "sticky" ["b"; "a"]]> one_sticky_view, 1)
                         "Tagged 1 node(s)") as Hrun.
  { vm_compute. reflexivity. }
  split.
  - apply (proj1 (bulk_operation_on_known_nodes _ _ _ _ _ _ _ Hrun)).
  - apply (proj1 (proj2 (bulk_operation_on_known_nodes _ _ _ _ _ _ _ Hrun))).
Defined.

Lemma quickStep_stepAt (mode : View.Mode) (tag : TagName) acc nodeId :
  View.quickStep mode tag acc nodeId
  = stepAt (λ node,
       match mode with
       | View.add =>
           if negb (JS.includes (View.tags node) tag)
           then Some (View.mkNode (View.id node) (View.name node) (View.type node)
                        (View.tags node ++ [tag]))
           else None
       | View.remove =>
           if JS.includes (View.tags node) tag
           then Some (View.mkNode (View.id node) (View.name node) (View.type node)
                        (filter (λ t, t ≠ tag) (View.tags node)))
           else None
       end) acc nodeId.
Proof.
  destruct acc as [newNodes count]. unfold View.quickStep, stepAt. simpl.
  destruct (newNodes !! nodeId) as [node|]; [|done].
  destruct mode; by destruct (JS.includes (View.tags node) tag).
Qed.

(** SelectionTagger's quick tag: it keeps the set of nodes, counts at most
    the selected ids, leaves every selected node it knows with the tag (add)
    or without it (remove), and a second click changes nothing and counts
    0. *)
Theorem quick_tag_settles (mode : View.Mode) (tag : TagName) (sel : list NodeId)
    (nodes newNodes : View.NodeRegistry) (count : nat) (toast : string) :
  View.handleQuickTag mode tag sel nodes = View.changed (newNodes, count) toast →
  (∀ k, is_Some (newNodes !! k) ↔ is_Some (nodes !! k))
  ∧ (count ≤ length sel)%nat
  ∧ (∀ k node', k ∈ sel → newNodes !! k = Some node' →
       match mode with
       | View.add => tag ∈ View.tags node'
       | View.remove => tag ∉ View.tags node'
       end)
  ∧ ∃ toast', View.handleQuickTag mode tag sel newNodes = View.changed (newNodes, 0) toast'.
Proof.
  unfold View.handleQuickTag. case_bool_decide as Hsel; [done|].
  cbv zeta. intros Hres. injection Hres as Hres _.
  rewrite (foldl_fun_ext _ _ _ _ (quickStep_stepAt mode tag)) in Hres.
  rewrite (foldl_fun_ext _ _ _ _ (quickStep_stepAt mode tag)).
  set (upd := λ node : View.FigJamNode, match mode with View.add => _ | View.remove => _ end)
    in *.
  assert (newNodes = (foldl (stepAt upd) (nodes, 0) sel).1) as Hnew by (by rewrite Hres).
  assert (count = (foldl (stepAt upd) (nodes, 0) sel).2) as -> by (by rewrite Hres).
  clear Hres.
  assert (∀ k, is_Some (newNodes !! k) ↔ is_Some (nodes !! k)) as Hdom.
  { intros k. rewrite Hnew. apply (stepAt_loop_dom upd (nodes, 0)). }
  set (P := λ x : View.FigJamNode,
         match mode with
         | View.add => tag ∈ View.tags x
         | View.remove => tag ∉ View.tags x
         end).
  assert (∀ x x', upd x = Some x' → P x') as HP.
  { intros x x'. subst upd P. simpl. unfold JS.includes. destruct mode.
    - case_bool_decide; [done|]. intros [= <-]. simpl.
      apply elem_of_app. right. by left.
    - case_bool_decide; [|done]. intros [= <-]. simpl.
      rewrite list_elem_of_filter. tauto. }
  assert (∀ x, upd x = None → P x) as HP0.
  { intros x. subst upd P. simpl. unfold JS.includes. destruct mode.
    - by case_bool_decide.
    - by case_bool_decide. }
  assert (∀ k node', k ∈ sel → newNodes !! k = Some node' → P node') as Hsettled.
  { intros k node' Hk Hnode'.
    destruct (proj1 (Hdom k)) as [node Hnode]; [by eexists|].
    destruct (stepAt_loop_last upd (λ _, True) P (nodes, 0) sel k node)
      as (x & Hx & HPx); try done.
    - intros x x' _. apply HP.
    - intros x _. apply HP0.
    - rewrite <- Hnew in Hx. congruence. }
  split_and!; [done| |done|].
  - apply (stepAt_count_le upd (nodes, 0)).
  - rewrite stepAt_loop_id.
    + by eexists.
    + intros k node Hk Hnode. simpl in Hnode. specialize (Hsettled k node Hk Hnode).
      subst upd P. simpl in *. unfold JS.includes. destruct mode.
      * by rewrite bool_decide_eq_true_2.
      * by rewrite bool_decide_eq_false_2.
Qed.

Lemma quick_tag_settles_witness :
  ∃ toast', View.handleQuickTag View.add "a" ["1"]
              (<["1" := View.mkNode "1" "n" "sticky" ["b"; "a"]]> one_sticky_view)
            = View.changed (<["1" := View.mkNode "1" "n" "sticky" ["b"; "a"]]> one_sticky_view, 0)
                           toast'.
Proof.
  assert (View.handleQuickTag View.add "a" ["1"] one_sticky_view
          = View.changed (<["1" := View.mkNode "1" "n" "sticky" ["b"; "a"]]> one_sticky_view, 1)
                         "Tagged 1 node(s)") as Hrun.
  { vm_compute. reflexivity. }
  apply (proj2 (proj2 (proj2 (quick_tag_settles _ _ _ _ _ _ _ Hrun)))).
Defined.

(** ** From the view to the sandbox *)

Lemma deliver_nodes msgs (sb : Sandbox.Figma) :
  Sandbox.nodes (deliver msgs sb) = Sandbox.nodes sb.
Proof.
  unfold deliver. revert sb. induction msgs as [|[k t] msgs IH]; intros sb; simpl; [done|].
  rewrite IH. unfold Sandbox.handleSetNodeTags. by destruct (Sandbox.nodes sb !! k).
Qed.

Lemma deliver_notin msgs (sb : Sandbox.Figma) k :
  k ∉ msgs.*1 → Sandbox.nodeTags (deliver msgs sb) !! k = Sandbox.nodeTags sb !! k.
Proof.
  unfold deliver. revert sb. induction msgs as [|[i t] msgs IH]; intros sb Hk; simpl; [done|].
  simpl in Hk. apply not_elem_of_cons in Hk as [Hne Hk]. rewrite IH by done.
  unfold Sandbox.handleSetNodeTags. destruct (Sandbox.nodes sb !! i); [|done].
  simpl. by rewrite lookup_insert_ne.
Qed.

Lemma deliver_in msgs (sb : Sandbox.Figma) k t :
  NoDup msgs.*1 → (k, t) ∈ msgs → is_Some (Sandbox.nodes sb !! k) →
  Sandbox.nodeTags (deliver msgs sb) !! k = Some t.
Proof.
  revert sb. induction msgs as [|[i u] msgs IH]; intros sb Hnd Hin Hnode.
  - by apply elem_of_nil in Hin.
  - simpl in Hnd. apply NoDup_cons in Hnd as [Hi Hnd].
    apply elem_of_cons in Hin as [[= <- <-]|Hin].
    + change (deliver ((k, t) :: msgs) sb)
        with (deliver msgs (Sandbox.handleSetNodeTags k t sb).1).
      rewrite deliver_notin by done. destruct Hnode as [node Hnode].
      by apply (sandbox_stores_what_it_is_sent k t node).
    + change (deliver ((i, u) :: msgs) sb)
        with (deliver msgs (Sandbox.handleSetNodeTags i u sb).1).
      apply IH; [done|done|].
      unfold Sandbox.handleSetNodeTags. by destruct (Sandbox.nodes sb !! i).
Qed.

Lemma Object_values_elem (nodes : View.NodeRegistry) node :
  node ∈ View.Object_values nodes ↔ ∃ k, nodes !! k = Some node.
Proof.
  unfold View.Object_values. rewrite list_elem_of_fmap. split.
  - intros ([k x] & -> & Hin). exists k. by apply elem_of_map_to_list.
  - intros (k & Hk). exists (k, node). split; [done|]. by apply elem_of_map_to_list.
Qed.

Lemma Object_values_ids (nodes : View.NodeRegistry) :
  well_keyed nodes → NoDup (View.id <$> View.Object_values nodes).
Proof.
  intros Hkeys. unfold View.Object_values.
  assert (View.id <$> (map_to_list nodes).*2 = (map_to_list nodes).*1) as ->.
  { rewrite <- list_fmap_compose. apply list_fmap_ext.
    intros _ [k node] Hin%list_elem_of_lookup_2%elem_of_map_to_list. simpl.
    by apply Hkeys. }
  apply NoDup_fst_map_to_list.
Qed.

Lemma handleNodesChange_elem (nodes newNodes : View.NodeRegistry) k t :
  (k, t) ∈ View.handleNodesChange nodes newNodes
  ↔ ∃ node, node ∈ View.Object_values newNodes ∧ View.id node = k ∧ View.tags node = t
            ∧ (nodes !! k = None ∨ ∃ old, nodes !! k = Some old ∧ View.tags old ≠ t).
Proof.
  unfold View.handleNodesChange. rewrite list_elem_of_omap. split.
  - intros (node & Hin & Hpost). exists node. split; [done|].
    destruct (nodes !! View.id node) as [old|] eqn:Hold.
    + case_bool_decide as Hne; [|done]. injection Hpost as <- <-.
      split_and!; [done|done|]. right. by exists old.
    + injection Hpost as <- <-. split_and!; [done|done|by left].
  - intros (node & Hin & <- & <- & Hwhy). exists node. split; [done|].
    destruct Hwhy as [->|(old & -> & Hne)]; [done|].
    by rewrite bool_decide_eq_true_2.
Qed.

Lemma handleNodesChange_NoDup (nodes newNodes : View.NodeRegistry) :
  well_keyed newNodes → NoDup (View.handleNodesChange nodes newNodes).*1.
Proof.
  intros Hkeys%Object_values_ids. unfold View.handleNodesChange.
  induction (View.Object_values newNodes) as [|node vs IH]; [apply NoDup_nil_2|].
  simpl in Hkeys. apply NoDup_cons in Hkeys as [Hnode Hvs]. specialize (IH Hvs).
  cbn [omap list_omap].
  match goal with |- context [match ?o with _ => _ end] => destruct o as [[k t]|] eqn:Hpost end;
    [|done].
  assert (k = View.id node) as ->.
  { destruct (nodes !! View.id node); [case_bool_decide|]; congruence. }
  simpl. apply NoDup_cons. split; [|done].
  rewrite list_elem_of_fmap. intros ([k' t'] & Hk & Hin). simpl in Hk. subst k'.
  apply list_elem_of_omap in Hin as (node' & Hin' & Hpost').
  apply Hnode. apply list_elem_of_fmap. exists node'. split; [|done].
  destruct (nodes !! View.id node'); [case_bool_decide|]; congruence.
Qed.

(** The view's changes reach the sandbox: if the sandbox stored the tags
    the view showed, and it has every node of the new registry, then after
    the [set-node-tags] messages of [handleNodesChange] it stores the tags of
    the new registry, for a registry keyed by the ids of its nodes. *)
Theorem view_changes_reach_sandbox (nodes newNodes : View.NodeRegistry)
    (sandbox : Sandbox.Figma) :
  well_keyed newNodes →
  in_sync nodes sandbox →
  (∀ k, is_Some (newNodes !! k) → is_Some (Sandbox.nodes sandbox !! k)) →
  in_sync newNodes (deliver (View.handleNodesChange nodes newNodes) sandbox).
Proof.
  intros Hkeys Hsync Hexists k node Hk.
  pose proof (Hkeys k node Hk) as Hid.
  assert (node ∈ View.Object_values newNodes) as Hin.
  { apply Object_values_elem. by exists k. }
  unfold Sandbox.getNodeTags.
  destruct (decide ((k, View.tags node) ∈ View.handleNodesChange nodes newNodes))
    as [Hposted|Hsilent].
  - rewrite (deliver_in _ _ k (View.tags node)); [done| |done|].
    + by apply handleNodesChange_NoDup.
    + apply Hexists. by eexists.
  - assert (∃ old, nodes !! k = Some old ∧ View.tags old = View.tags node)
      as (old & Hold & Htags).
    { destruct (nodes !! k) as [old|] eqn:Hold.
      - exists old. split; [done|].
        destruct (decide (View.tags old = View.tags node)) as [|Hne]; [done|].
        destruct Hsilent. apply handleNodesChange_elem. exists node.
        split_and!; [done..|]. right. by exists old.
      - destruct Hsilent. apply handleNodesChange_elem. exists node.
        split_and!; [done..|]. by left. }
    rewrite deliver_notin.
    + rewrite <- Htags. apply (Hsync k old Hold).
    + rewrite list_elem_of_fmap. intros ([k' t] & Hk' & Hpost). simpl in Hk'. subst k'.
      apply handleNodesChange_elem in Hpost as (node' & Hin' & Hid' & <- & Hwhy).
      apply Object_values_elem in Hin' as (k' & Hk').
      pose proof (Hkeys k' node' Hk') as Hid''.
      assert (node' = node) as -> by congruence.
      destruct Hwhy as [Hnone|(old' & Hold' & Hne)]; congruence.
Qed.

Lemma view_changes_reach_sandbox_witness :
  in_sync (<["1" := View.mkNode "1" "n" "sticky" ["b"; "a"]]> one_sticky_view)
    (deliver (View.handleNodesChange one_sticky_view
                (<["1" := View.mkNode "1" "n" "sticky" ["b"; "a"]]> one_sticky_view))
             one_sticky_sandbox).
Proof.
  apply (view_changes_reach_sandbox one_sticky_view
           (<["1" := View.mkNode "1" "n" "sticky" ["b"; "a"]]> one_sticky_view)
           one_sticky_sandbox).
  - intros k node. destruct (decide (k = "1")) as [->|Hne].
    + vm_compute. intros [= <-]. reflexivity.
    + unfold one_sticky_view. rewrite lookup_insert_ne, lookup_singleton_ne by done. discriminate.
  - intros k node. destruct (decide (k = "1")) as [->|Hne].
    + vm_compute. intros [= <-]. reflexivity.
    + unfold one_sticky_view. rewrite lookup_singleton_ne by done. discriminate.
  - intros k. destruct (decide (k = "1")) as [->|Hne].
    + intros _. vm_compute. eexists. reflexivity.
    + unfold one_sticky_view. rewrite lookup_insert_ne, lookup_singleton_ne by done.
      intros [? Hnone]. discriminate Hnone.
Defined.

(** A registry that did not change makes [handleNodesChange] post
    nothing. *)
Theorem unchanged_nodes_post_nothing (nodes : View.NodeRegistry) :
  well_keyed nodes → View.handleNodesChange nodes nodes = [].
Proof.
  intros Hkeys.
  destruct (View.handleNodesChange nodes nodes) as [|[k t] rest] eqn:Hmsgs; [done|].
  assert ((k, t) ∈ View.handleNodesChange nodes nodes) as Hin by (rewrite Hmsgs; by left).
  apply handleNodesChange_elem in Hin as (node & Hin & Hid & Htags & Hwhy).
  apply Object_values_elem in Hin as (k' & Hk').
  pose proof (Hkeys k' node Hk') as Hid'.
  assert (k' = k) as -> by congruence.
  destruct Hwhy as [Hnone|(old & Hold & Hne)]; congruence.
Qed.

Lemma unchanged_nodes_post_nothing_witness :
  View.handleNodesChange one_sticky_view one_sticky_view = [].
Proof.
  apply (unchanged_nodes_post_nothing one_sticky_view).
  intros k node. destruct (decide (k = "1")) as [->|Hne].
  - vm_compute. intros [= <-]. reflexivity.
  - unfold one_sticky_view. rewrite lookup_singleton_ne by done. discriminate.
Defined.

(** ** Renaming and merging in the view *)

(** TagManager's rename, for a new name that is not blank and not the old
    one: it refuses a name that is taken, and a name that every object
    inherits, so that no entry is overwritten; otherwise the entry moves to
    the new name with its metadata as it was, and every other entry stays. *)
Theorem view_rename_moves_entry (registry : TagRegistry) (tag : TagName)
    (newName : string) (m : TagMeta) :
  JS.trim newName ≠ EmptyString →
  JS.trim newName ≠ tag →
  registry !! tag = Some m →
  (is_Some (registry !! JS.trim newName) ∨ JS.inherited (JS.trim newName) = true →
     View.handleRenameTag registry tag newName
     = View.rejected "Tag with that name already exists")
  ∧ (registry !! JS.trim newName = None →
     JS.inherited (JS.trim newName) = false →
     ∃ renamed, View.handleRenameTag registry tag newName = View.changed renamed "Tag renamed"
       ∧ renamed !! JS.trim newName = Some m
       ∧ renamed !! tag = None
       ∧ ∀ k, k ≠ tag → k ≠ JS.trim newName → renamed !! k = registry !! k).
Proof.
  intros Hblank Hsame Htag. unfold View.handleRenameTag.
  rewrite bool_decide_eq_false_2 by tauto. split.
  - intros Htaken. by rewrite (proj2 (truthy_cases registry (JS.trim newName)) Htaken).
  - intros Hfree Hplain. rewrite truthy_plain by done.
    rewrite Htag. eexists. split; [done|].
    pose proof (not_inherited_proto _ Hplain) as Hproto. split_and!.
    + by rewrite lookup_delete_ne, assign_lookup_eq by auto.
    + apply lookup_delete_eq.
    + intros k Hk Hk'. by rewrite lookup_delete_ne, assign_lookup_ne.
Qed.

Lemma view_rename_moves_entry_witness :
  View.handleRenameTag (Mvp.registry red_and_blue) "b" " a "
  = View.rejected "Tag with that name already exists"
  ∧ View.handleRenameTag (Mvp.registry red_and_blue) "b" "valueOf"
    = View.rejected "Tag with that name already exists"
  ∧ ∃ renamed,
      View.handleRenameTag (Mvp.registry red_and_blue) "b" " c "
      = View.changed renamed "Tag renamed"
      ∧ renamed !! JS.trim " c " = Some (mkTagMeta (Some "blue") (Some "x"))
      ∧ renamed !! "b" = None
      ∧ ∀ k, k ≠ "b" → k ≠ JS.trim " c " → renamed !! k = Mvp.registry red_and_blue !! k.
Proof.
  split; [|split].
  - apply (proj1 (view_rename_moves_entry (Mvp.registry red_and_blue) "b" " a "
                    (mkTagMeta (Some "blue") (Some "x"))
                    ltac:(discriminate) ltac:(discriminate) ltac:(reflexivity))).
    left. vm_compute. eexists. reflexivity.
  - apply (proj1 (view_rename_moves_entry (Mvp.registry red_and_blue) "b" "valueOf"
                    (mkTagMeta (Some "blue") (Some "x"))
                    ltac:(discriminate) ltac:(discriminate) ltac:(reflexivity))).
    right. reflexivity.
  - apply (proj2 (view_rename_moves_entry (Mvp.registry red_and_blue) "b" " c "
                    (mkTagMeta (Some "blue") (Some "x"))
                    ltac:(discriminate) ltac:(discriminate) ltac:(reflexivity)));
      reflexivity.
Defined.

Lemma view_merge_folds_metadata_witness :
  View.mergeRegistry "a" ["b"] (Mvp.registry red_and_blue) !! "b" = None
  ∧ (∃ m, View.mergeRegistry "a" ["b"] (Mvp.registry red_and_blue) !! "a" = Some m
          ∧ color m = first_set color
                        (default no_meta (Mvp.registry red_and_blue !! "a")
                         :: sources "a" (λ f, Mvp.registry red_and_blue !! f) ["b"])
          ∧ emoji m = first_set emoji
                        (default no_meta (Mvp.registry red_and_blue !! "a")
                         :: sources "a" (λ f, Mvp.registry red_and_blue !! f) ["b"]))
  ∧ View.mergeRegistry "constructor" ["zzz"] (Mvp.registry red_and_blue)
    = Mvp.registry red_and_blue.
Proof.
  split; [|split].
  - apply (proj1 (view_merge_folds_metadata "a" ["b"] (Mvp.registry red_and_blue)) "b").
    + left.
    + discriminate.
  - apply (proj1 (proj2 (view_merge_folds_metadata "a" ["b"] (Mvp.registry red_and_blue)))).
    left. reflexivity.
  - apply (proj2 (proj2 (view_merge_folds_metadata "constructor" ["zzz"]
                           (Mvp.registry red_and_blue)))).
    + reflexivity.
    + reflexivity.
    + intros f Hf _. apply list_elem_of_singleton in Hf as ->. reflexivity.
Defined.

Lemma view_merge_sends_normalized_witness : normalized ["bug"; "triage"].
Proof.
  apply (view_merge_sends_normalized "triage" ["urgent"]
           {[ "1" := View.mkNode "1" "n" "sticky" ["urgent"; "bug"] ]} "1" ["bug"; "triage"]).
  vm_compute. left.
Defined.

(** ** Strings: reversal, trimming and splitting *)

Lemma append_nil_r (s : string) : s +:+ EmptyString = s.
Proof. induction s as [|c s IH]; [done|]. by rewrite append_cons, IH. Qed.

Lemma append_assoc (a b c : string) : (a +:+ b) +:+ c = a +:+ (b +:+ c).
Proof. induction a as [|x a IH]; [done|]. by rewrite !append_cons, IH. Qed.

Lemma rev_app_append (s acc : string) : String.rev_app s acc = String.rev s +:+ acc.
Proof.
  unfold String.rev. revert acc. induction s as [|c s IH]; intros acc; [done|].
  simpl. rewrite (IH (String c acc)), (IH (String c EmptyString)).
  by rewrite append_assoc.
Qed.

Lemma rev_cons (c : ascii) (s : string) :
  String.rev (String c s) = String.rev s +:+ String c EmptyString.
Proof. unfold String.rev at 1. simpl. apply rev_app_append. Qed.

Lemma rev_append (a b : string) : String.rev (a +:+ b) = String.rev b +:+ String.rev a.
Proof.
  induction a as [|c a IH].
  - change (EmptyString +:+ b) with b. by rewrite append_nil_r.
  - rewrite append_cons, !rev_cons, IH. apply append_assoc.
Qed.

Lemma rev_involutive (s : string) : String.rev (String.rev s) = s.
Proof.
  induction s as [|c s IH]; [done|].
  rewrite rev_cons, rev_append, IH. done.
Qed.

Lemma has_char_append (c : ascii) (a b : string) :
  has_char c (a +:+ b) = has_char c a || has_char c b.
Proof.
  induction a as [|d a IH]; [done|].
  rewrite append_cons. simpl. by rewrite IH, orb_assoc.
Qed.

Lemma has_char_rev (c : ascii) (s : string) : has_char c (String.rev s) = has_char c s.
Proof.
  induction s as [|d s IH]; [done|].
  rewrite rev_cons, has_char_append, IH. simpl. by rewrite orb_false_r, orb_comm.
Qed.

Lemma trim_start_suffix (s : string) : ∃ p, s = p +:+ JS.trim_start s.
Proof.
  induction s as [|c s [p IH]]; [by exists EmptyString|].
  simpl. destruct (JS.is_white c).
  - exists (String c p). by rewrite append_cons, <- IH.
  - by exists EmptyString.
Qed.

Lemma trim_start_clean (s : string) : starts_clean (JS.trim_start s).
Proof.
  induction s as [|c s IH]; [done|].
  simpl. by destruct (JS.is_white c) eqn:Hc.
Qed.

Lemma trim_start_id (s : string) : starts_clean s → JS.trim_start s = s.
Proof. destruct s as [|c s]; [done|]. simpl. by intros ->. Qed.

Lemma split_go_no_comma (s cur part : string) :
  has_char "," cur = false → part ∈ JS.split_go cur s → has_char "," part = false.
Proof.
  revert cur. induction s as [|c s IH]; intros cur Hcur; simpl.
  - intros ->%list_elem_of_singleton. by rewrite has_char_rev.
  - destruct (Ascii.eqb_spec c ",") as [->|Hc].
    + intros [->|Hin]%elem_of_cons; [by rewrite has_char_rev|].
      by apply (IH EmptyString).
    + apply IH. simpl. rewrite Hcur, orb_false_r.
      by apply Ascii.eqb_neq.
Qed.

(** The tags read from an input field (a comma separated list): none is
    blank, none holds a comma, and each is trimmed already. *)
Theorem typed_tags_are_clean (raw : string) (t : TagName) :
  t ∈ JS.tag_list_of_input raw →
  t ≠ EmptyString ∧ has_char "," t = false ∧ JS.trim t = t.
Proof.
  unfold JS.tag_list_of_input. rewrite list_elem_of_filter, list_elem_of_fmap.
  intros [Hblank (part & -> & Hpart)]. split; [done|].
  apply (split_go_no_comma raw EmptyString part eq_refl) in Hpart.
  unfold JS.trim.
  set (q := JS.trim_start part).
  set (u := JS.trim_start (String.rev q)).
  destruct (trim_start_suffix part) as [p Hp]. fold q in Hp.
  destruct (trim_start_suffix (String.rev q)) as [w Hw]. fold u in Hw.
  assert (q = String.rev u +:+ String.rev w) as Hq.
  { by rewrite <- rev_append, <- Hw, rev_involutive. }
  split.
  - rewrite has_char_rev.
    assert (has_char "," (String.rev q) = false) as Hrq.
    { rewrite has_char_rev. rewrite Hp, has_char_append in Hpart.
      by apply orb_false_elim in Hpart as [_ ?]. }
    rewrite Hw, has_char_append in Hrq. by apply orb_false_elim in Hrq as [_ ?].
  - assert (starts_clean (String.rev u)) as Hclean.
    { pose proof (trim_start_clean part) as Hcq. fold q in Hcq. rewrite Hq in Hcq.
      by destruct (String.rev u). }
    rewrite (trim_start_id _ Hclean), rev_involutive.
    by rewrite (trim_start_id u) by apply trim_start_clean.
Qed.

Lemma typed_tags_are_clean_witness :
  "b c" ≠ EmptyString ∧ has_char "," "b c" = false ∧ JS.trim "b c" = "b c".
Proof.
  apply (typed_tags_are_clean " a ,, b c " "b c").
  vm_compute. right. left.
Defined.

(** ** Reading an exported row back *)

Lemma double_quotes_plain (s : string) :
  has_char JS.dquote s = false → JS.double_quotes s = s.
Proof.
  induction s as [|c s IH]; [done|]. simpl.
  intros [Hc Hs]%orb_false_elim. rewrite Hc. by rewrite IH.
Qed.

Lemma join_plain (tags : list TagName) :
  Forall (λ t, has_char JS.dquote t = false) tags →
  has_char JS.dquote (JS.join "|" tags) = false.
Proof.
  induction 1 as [|t tags Ht Htags IH]; [done|].
  destruct tags as [|t' tags]; [done|].
  change (JS.join "|" (t :: t' :: tags)) with (t +:+ "|" +:+ JS.join "|" (t' :: tags)).
  by rewrite !has_char_append, Ht, IH.
Qed.

Lemma read_field_plain (s tail : string) :
  has_char JS.dquote s = false →
  (∀ rest, tail ≠ String JS.dquote rest) →
  Csv.read_field (JS.quote +:+ s +:+ JS.quote +:+ tail) = Some (s, tail).
Proof.
  intros Hs Htail. rewrite <- (double_quotes_plain s Hs) at 1.
  by apply name_field_recoverable.
Qed.

Lemma read_fields_more (n : nat) (s field rest : string) :
  Csv.read_field s = Some (field, "," +:+ rest) →
  Csv.read_fields (S (S n)) s = (field ::.) <$> Csv.read_fields (S n) rest.
Proof. intros Hs. cbn [Csv.read_fields]. rewrite Hs. reflexivity. Qed.

Lemma read_fields_last (s field : string) :
  Csv.read_field s = Some (field, EmptyString) → Csv.read_fields 1 s = Some [field].
Proof. intros Hs. cbn [Csv.read_fields]. by rewrite Hs. Qed.

(** A row of [exportToCSV] reads back as the id, the name, the type and the
    joined tags of the node, whatever the name holds, when the id, the type
    and the tags hold no double quote. *)
Theorem exported_row_reads_back (node : View.FigJamNode) :
  has_char JS.dquote (View.id node) = false →
  has_char JS.dquote (View.type node) = false →
  Forall (λ t, has_char JS.dquote t = false) (View.tags node) →
  Csv.read_fields 4 (View.exportRow node)
  = Some [View.id node; View.name node; View.type node; JS.join "|" (View.tags node)].
Proof.
  intros Hid Htype Htags%join_plain. unfold View.exportRow.
  rewrite (read_fields_more 2 _ (View.id node)
             (JS.quote +:+ JS.double_quotes (View.name node) +:+ JS.quote +:+ "," +:+
              JS.quote +:+ View.type node +:+ JS.quote +:+ "," +:+
              JS.quote +:+ JS.join "|" (View.tags node) +:+ JS.quote)).
  2:{ by apply read_field_plain. }
  rewrite (read_fields_more 1 _ (View.name node)
             (JS.quote +:+ View.type node +:+ JS.quote +:+ "," +:+
              JS.quote +:+ JS.join "|" (View.tags node) +:+ JS.quote)).
  2:{ by apply name_field_recoverable. }
  rewrite (read_fields_more 0 _ (View.type node)
             (JS.quote +:+ JS.join "|" (View.tags node) +:+ JS.quote)).
  2:{ by apply read_field_plain. }
  rewrite (read_fields_last _ (JS.join "|" (View.tags node))); [done|].
  rewrite <- (append_nil_r JS.quote) at 2. by apply read_field_plain.
Qed.

Lemma exported_row_reads_back_witness :
  Csv.read_fields 4 (View.exportRow say_hi)
  = Some [View.id say_hi; View.name say_hi; View.type say_hi;
          JS.join "|" (View.tags say_hi)].
Proof.
  apply (exported_row_reads_back say_hi).
  - reflexivity.
  - reflexivity.
  - repeat constructor.
Defined.

(** ** The simulator's rename and delete *)

Section ForEachNode.
Context (change : View.FigJamNode → option View.FigJamNode).

Lemma forEach_fold_notin (vs : list View.FigJamNode) (acc : View.NodeRegistry) k :
  k ∉ View.id <$> vs →
  foldl (λ updatedNodes node,
           match change node with
           | Some node' => <[View.id node := node']> updatedNodes
           | None => updatedNodes
           end) acc vs !! k = acc !! k.
Proof.
  revert acc. induction vs as [|v vs IH]; intros acc Hk; simpl; [done|].
  simpl in Hk. apply not_elem_of_cons in Hk as [Hne Hk]. rewrite IH by done.
  destruct (change v); [|done]. by rewrite lookup_insert_ne.
Qed.

Lemma forEach_fold_in (vs : list View.FigJamNode) (acc : View.NodeRegistry) node :
  NoDup (View.id <$> vs) → node ∈ vs →
  foldl (λ updatedNodes node,
           match change node with
           | Some node' => <[View.id node := node']> updatedNodes
           | None => updatedNodes
           end) acc vs !! View.id node
  = match change node with
    | Some node' => Some node'
    | None => acc !! View.id node
    end.
Proof.
  revert acc. induction vs as [|v vs IH]; intros acc Hnd Hin; simpl.
  - by apply elem_of_nil in Hin.
  - simpl in Hnd. apply NoDup_cons in Hnd as [Hv Hnd].
    apply elem_of_cons in Hin as [->|Hin].
    + rewrite forEach_fold_notin by done.
      destruct (change v); [|done]. by rewrite lookup_insert_eq.
    + rewrite IH by done. destruct (change node); [done|].
      destruct (change v); [|done]. rewrite lookup_insert_ne; [done|].
      intros Heq. apply Hv. rewrite Heq. apply list_elem_of_fmap. by exists node.
Qed.

(** On a registry keyed by ids the loop rewrites each node where it
    stands. *)
Lemma forEachNode_lookup (nodes : View.NodeRegistry) k :
  well_keyed nodes →
  Simulator.forEachNode change nodes !! k
  = (λ node, default node (change node)) <$> nodes !! k.
Proof.
  intros Hkeys. unfold Simulator.forEachNode.
  destruct (nodes !! k) as [node|] eqn:Hk; simpl.
  - rewrite <- (Hkeys k node Hk).
    rewrite forEach_fold_in.
    + rewrite (Hkeys k node Hk), Hk. by destruct (change node).
    + by apply Object_values_ids.
    + apply Object_values_elem. by exists k.
  - rewrite forEach_fold_notin; [done|].
    rewrite list_elem_of_fmap. intros (node & -> & (k' & Hk')%Object_values_elem).
    rewrite (Hkeys k' node Hk') in Hk. congruence.
Qed.
End ForEachNode.

Lemma indexOf_replaced (old new : TagName) (tags : list TagName) :
  old ≠ new → old ∈ tags →
  ∃ i, Simulator.indexOf tags old = Some i
       ∧ tags !! i = Some old
       ∧ (∀ j, (j < i)%nat → tags !! j ≠ Some old)
       ∧ length (<[i := new]> tags) = length tags
       ∧ occurrences new (<[i := new]> tags) = S (occurrences new tags)
       ∧ occurrences old (<[i := new]> tags) = pred (occurrences old tags).
Proof.
  intros Hne. unfold occurrences. induction tags as [|t tags IH]; intros Hin.
  - by apply elem_of_nil in Hin.
  - simpl. case_bool_decide as Ht.
    + subst t. exists 0. simpl. split_and!; [done|done|lia|done| |].
      * rewrite filter_cons_True by done. by rewrite filter_cons_False by done.
      * rewrite (filter_cons_False _ new) by (intros ->; done).
        by rewrite filter_cons_True by done.
    + apply elem_of_cons in Hin as [->|Hin]; [done|].
      destruct (IH Hin) as (i & -> & Hat & Hfirst & Hlen & Hnew & Hold).
      exists (S i). simpl. split_and!; [done|done| |by rewrite Hlen| |].
      * intros [|j] Hj; simpl; [congruence|]. apply Hfirst. lia.
      * destruct (decide (t = new)) as [->|Htn].
        -- rewrite !filter_cons_True by done. simpl. by rewrite Hnew.
        -- by rewrite !filter_cons_False by done.
      * by rewrite !filter_cons_False by done.
Qed.

(** The simulator's rename to a different name, on a registry keyed by ids.
    The old entry goes, the new name gets the metadata given, whatever entry
    it had (unless it is [__proto__] without entry, which the assignment does
    not create), and every other entry stays.  A node that carried the old
    tag keeps its id, name and type, and its tags with the first occurrence
    of the old tag replaced by the new one where it stood: the list keeps its
    length and its other elements, and the new tag occurs once more than
    before (twice, if the node had it).  The other nodes stay as they
    were. *)
Theorem simulator_rename_in_place (oldTag newTag : TagName) (meta : TagMeta)
    (tagRegistry : TagRegistry) (nodes : View.NodeRegistry) :
  well_keyed nodes →
  oldTag ≠ EmptyString → newTag ≠ EmptyString → oldTag ≠ newTag →
  ∃ newRegistry newNodes toast,
    Simulator.handleUpdateTag oldTag newTag meta tagRegistry nodes
    = View.changed (newRegistry, newNodes) toast
    ∧ (newTag ≠ "__proto__" ∨ is_Some (tagRegistry !! newTag) →
       newRegistry !! newTag = Some meta)
    ∧ newRegistry !! oldTag = None
    ∧ (∀ t, t ≠ oldTag → t ≠ newTag → newRegistry !! t = tagRegistry !! t)
    ∧ ∀ k node, nodes !! k = Some node →
        (oldTag ∉ View.tags node → newNodes !! k = Some node)
        ∧ (oldTag ∈ View.tags node →
           ∃ i, View.tags node !! i = Some oldTag
             ∧ (∀ j, (j < i)%nat → View.tags node !! j ≠ Some oldTag)
             ∧ newNodes !! k
               = Some (View.mkNode (View.id node) (View.name node) (View.type node)
                         (<[i := newTag]> (View.tags node)))
             ∧ length (<[i := newTag]> (View.tags node)) = length (View.tags node)
             ∧ occurrences newTag (<[i := newTag]> (View.tags node))
               = S (occurrences newTag (View.tags node))
             ∧ occurrences oldTag (<[i := newTag]> (View.tags node))
               = pred (occurrences oldTag (View.tags node))).
Proof.
  intros Hkeys Hold Hnew Hne. unfold Simulator.handleUpdateTag.
  rewrite bool_decide_eq_false_2 by tauto. rewrite bool_decide_eq_true_2 by done.
  eexists _, _, _. split; [done|]. split_and!.
  - intros Hassign. apply assign_lookup_eq.
    destruct Hassign as [?|Hown]; [by left|right]. by rewrite lookup_delete_ne.
  - by rewrite assign_lookup_ne, lookup_delete_eq.
  - intros t Ht Ht'. by rewrite assign_lookup_ne, lookup_delete_ne.
  - intros k node Hk. rewrite forEachNode_lookup, Hk by done. simpl.
    unfold Simulator.renamedNode, JS.includes. split.
    + intros Hnot. by rewrite bool_decide_eq_false_2.
    + intros Hin. rewrite bool_decide_eq_true_2 by done. simpl.
      destruct (indexOf_replaced oldTag newTag (View.tags node) Hne Hin)
        as (i & -> & Hat & Hfirst & Hlen & Hocc & Hocc').
      exists i. done.
Qed.

Lemma simulator_rename_in_place_witness :
  ∃ newRegistry newNodes toast,
    Simulator.handleUpdateTag "b" "a" no_meta ∅
      {[ "1" := View.mkNode "1" "n" "sticky" ["x"; "b"; "a"; "b"] ]}
    = View.changed (newRegistry, newNodes) toast
    ∧ (("a" : string) ≠ "__proto__" ∨ is_Some ((∅ : TagRegistry) !! "a") →
       newRegistry !! "a" = Some no_meta)
    ∧ newRegistry !! "b" = None
    ∧ (∀ t, t ≠ "b" → t ≠ "a" → newRegistry !! t = (∅ : TagRegistry) !! t)
    ∧ ∀ k node,
        ({[ "1" := View.mkNode "1" "n" "sticky" ["x"; "b"; "a"; "b"] ]} : View.NodeRegistry)
          !! k = Some node →
        ("b" ∉ View.tags node → newNodes !! k = Some node)
        ∧ ("b" ∈ View.tags node →
           ∃ i, View.tags node !! i = Some "b"
             ∧ (∀ j, (j < i)%nat → View.tags node !! j ≠ Some "b")
             ∧ newNodes !! k
               = Some (View.mkNode (View.id node) (View.name node) (View.type node)
                         (<[i := "a"]> (View.tags node)))
             ∧ length (<[i := "a"]> (View.tags node)) = length (View.tags node)
             ∧ occurrences "a" (<[i := "a"]> (View.tags node))
               = S (occurrences "a" (View.tags node))
             ∧ occurrences "b" (<[i := "a"]> (View.tags node))
               = pred (occurrences "b" (View.tags node))).
Proof.
  apply (simulator_rename_in_place "b" "a" no_meta ∅
           {[ "1" := View.mkNode "1" "n" "sticky" ["x"; "b"; "a"; "b"] ]}).
  - intros k node. destruct (decide (k = "1")) as [->|Hk].
    + rewrite lookup_singleton_eq. intros [= <-]. reflexivity.
    + rewrite lookup_singleton_ne by done. discriminate.
  - discriminate.
  - discriminate.
  - discriminate.
Defined.

(** The simulator's delete, on a registry keyed by ids: the registry loses
    the entry, every node keeps its place and its other tags in their order,
    and none carries the tag afterwards. *)
Theorem simulator_delete_cascades (tag : TagName) (tagRegistry : TagRegistry)
    (nodes : View.NodeRegistry) :
  well_keyed nodes →
  tag ≠ EmptyString →
  ∃ newNodes toast,
    Simulator.handleDeleteTag tag tagRegistry nodes
    = View.changed (delete tag tagRegistry, newNodes) toast
    ∧ (∀ k, newNodes !! k
            = (λ node, View.mkNode (View.id node) (View.name node) (View.type node)
                         (filter (λ t, t ≠ tag) (View.tags node))) <$> nodes !! k)
    ∧ ∀ k node', newNodes !! k = Some node' → tag ∉ View.tags node'.
Proof.
  intros Hkeys Htag. unfold Simulator.handleDeleteTag.
  rewrite bool_decide_eq_false_2 by done. eexists _, _. split; [done|].
  assert (∀ k, Simulator.forEachNode (Simulator.strippedNode tag) nodes !! k
            = (λ node, View.mkNode (View.id node) (View.name node) (View.type node)
                         (filter (λ t, t ≠ tag) (View.tags node))) <$> nodes !! k) as Hlook.
  { intros k. rewrite forEachNode_lookup by done.
    destruct (nodes !! k) as [node|]; [|done]. simpl. f_equal.
    unfold Simulator.strippedNode, JS.includes. case_bool_decide as Hin; [done|].
    simpl. destruct node as [i n ty tags]. simpl in *. f_equal.
    symmetry. clear -Hin. induction tags as [|t tags IH]; [done|].
    apply not_elem_of_cons in Hin as [Hne Hin].
    rewrite filter_cons_True by done. by rewrite IH. }
  split; [done|]. intros k node'. rewrite Hlook.
  destruct (nodes !! k) as [node|]; [|done]. simpl. intros [= <-]. simpl.
  rewrite list_elem_of_filter. tauto.
Qed.

Lemma simulator_delete_cascades_witness :
  ∃ newNodes toast,
    Simulator.handleDeleteTag "b" ∅ one_sticky_view
    = View.changed (delete "b" (∅ : TagRegistry), newNodes) toast
    ∧ (∀ k, newNodes !! k
            = (λ node, View.mkNode (View.id node) (View.name node) (View.type node)
                         (filter (λ t, t ≠ "b") (View.tags node))) <$> one_sticky_view !! k)
    ∧ ∀ k node', newNodes !! k = Some node' → "b" ∉ View.tags node'.
Proof.
  apply (simulator_delete_cascades "b" ∅ one_sticky_view).
  - intros k node. destruct (decide (k = "1")) as [->|Hk].
    + vm_compute. intros [= <-]. reflexivity.
    + unfold one_sticky_view. rewrite lookup_singleton_ne by done. discriminate.
  - discriminate.
Defined.

(** ** Toggling a selected item *)

(** [handleToggleSelection] flips the membership of the id and of no other,
    keeps a list without repetition so, and toggling an id that was not
    selected twice gives the list back. *)
Theorem toggle_selection_flips (selectedItems : list string) (itemId : string) :
  (itemId ∈ ItemManager.handleToggleSelection selectedItems itemId
   ↔ itemId ∉ selectedItems)
  ∧ (∀ k, k ≠ itemId →
       k ∈ ItemManager.handleToggleSelection selectedItems itemId ↔ k ∈ selectedItems)
  ∧ (NoDup selectedItems →
     NoDup (ItemManager.handleToggleSelection selectedItems itemId))
  ∧ (itemId ∉ selectedItems →
     ItemManager.handleToggleSelection
       (ItemManager.handleToggleSelection selectedItems itemId) itemId
     = selectedItems).
Proof.
  unfold ItemManager.handleToggleSelection, JS.includes. split_and!.
  - case_bool_decide as Hin.
    + rewrite list_elem_of_filter. tauto.
    + rewrite elem_of_app, list_elem_of_singleton. tauto.
  - intros k Hk. case_bool_decide as Hin.
    + rewrite list_elem_of_filter. tauto.
    + rewrite elem_of_app, list_elem_of_singleton. tauto.
  - intros Hnd. case_bool_decide as Hin.
    + by apply NoDup_filter.
    + apply NoDup_app. split_and!; [done| |apply NoDup_singleton].
      intros x Hx ->%list_elem_of_singleton. done.
  - intros Hnot. rewrite (bool_decide_eq_false_2 _ Hnot).
    rewrite bool_decide_eq_true_2.
    + rewrite filter_app, filter_cons_False by tauto. rewrite filter_nil, app_nil_r.
      clear -Hnot. induction selectedItems as [|x l IH]; [done|].
      apply not_elem_of_cons in Hnot as [Hne Hnot].
      rewrite filter_cons_True by done. by rewrite IH.
    + apply elem_of_app. right. by left.
Qed.

Lemma toggle_selection_flips_witness :
  NoDup (ItemManager.handleToggleSelection ["1"; "2"] "2")
  ∧ ItemManager.handleToggleSelection (ItemManager.handleToggleSelection ["1"; "2"] "3") "3"
    = ["1"; "2"].
Proof.
  split.
  - apply (proj1 (proj2 (proj2 (toggle_selection_flips ["1"; "2"] "2")))).
    repeat constructor; vm_compute; intros Hin.
    + apply list_elem_of_singleton in Hin. discriminate Hin.
    + by apply elem_of_nil in Hin.
  - apply (proj2 (proj2 (proj2 (toggle_selection_flips ["1"; "2"] "3")))).
    intros Hin. apply elem_of_cons in Hin as [Hin|Hin]; [discriminate Hin|].
    apply list_elem_of_singleton in Hin. discriminate Hin.
Defined.

(** ** What the sandbox code finds on the page *)

Lemma SceneTree_ind' (P : Canvas.SceneTree → Prop) :
  (∀ id data is_page children, Forall P children →
     P (Canvas.scene id data is_page children)) →
  ∀ t, P t.
Proof.
  intros Hstep. fix IH 1. intros [id data is_page children]. apply Hstep.
  induction children as [|c cs IHcs]; constructor; [apply IH|exact IHcs].
Qed.

Lemma subtree_unfold id data is_page children :
  Canvas.subtree (Canvas.scene id data is_page children)
  = Canvas.scene id data is_page children :: flat_map Canvas.subtree children.
Proof. reflexivity. Qed.

Section Scans.
Context (st : Sandbox.Figma).

Lemma children_fold {A} (f : Canvas.SceneTree → A → A) (one : A → Canvas.SceneTree → A)
    (children : list Canvas.SceneTree) (acc : A) :
  Forall (λ c, ∀ acc, f c acc = foldl one acc (Canvas.subtree c)) children →
  foldl (λ acc c, f c acc) acc children = foldl one acc (flat_map Canvas.subtree children).
Proof.
  intros Hcs. revert acc. induction Hcs as [|c cs Hc _ IH]; intros acc; simpl; [done|].
  by rewrite foldl_app, <- Hc, IH.
Qed.

Lemma scanNode_fold (t : Canvas.SceneTree) nodes :
  Canvas.scanNode st t nodes = foldl (scanOne st) nodes (Canvas.subtree t).
Proof.
  revert nodes. induction t as [id data is_page children IH] using SceneTree_ind'.
  intros nodes. rewrite subtree_unfold. simpl.
  by rewrite (children_fold (Canvas.scanNode st) (scanOne st)).
Qed.

Lemma getAllTaggedNodes_fold (pageChildren : list Canvas.SceneTree) :
  Canvas.getAllTaggedNodes st pageChildren
  = foldl (scanOne st) ∅ (Canvas.all_nodes pageChildren).
Proof.
  unfold Canvas.getAllTaggedNodes, Canvas.all_nodes.
  apply (children_fold (Canvas.scanNode st) (scanOne st)).
  apply Forall_forall. intros t _ acc. apply scanNode_fold.
Qed.

Lemma scanOne_fold_Some (l : list Canvas.SceneTree) nodes k nd :
  foldl (scanOne st) nodes l !! k = Some nd →
  nodes !! k = Some nd
  ∨ (Sandbox.nd_id nd = k ∧ Sandbox.nd_tags nd = Sandbox.getNodeTags st k
     ∧ Sandbox.getNodeTags st k ≠ []).
Proof.
  revert nodes. induction l as [|t l IH]; intros nodes; simpl; [by left|].
  intros [Hk|Hk]%IH; [|by right].
  destruct t as [id data is_page children]. simpl in Hk.
  destruct is_page; simpl in Hk; [by left|].
  case_bool_decide as Hlen; [|by left].
  destruct (decide (id = k)) as [->|Hne].
  - rewrite lookup_insert_eq in Hk. injection Hk as <-. right. simpl.
    split_and!; [done|done|]. intros Hnil. rewrite Hnil in Hlen. simpl in Hlen. lia.
  - rewrite lookup_insert_ne in Hk by done. by left.
Qed.

Lemma scanOne_fold_is_Some (l : list Canvas.SceneTree) nodes k :
  is_Some (foldl (scanOne st) nodes l !! k)
  ↔ is_Some (nodes !! k)
    ∨ ((∃ t, t ∈ l ∧ Canvas.tree_id t = k ∧ Canvas.tree_is_page t = false)
       ∧ Sandbox.getNodeTags st k ≠ []).
Proof.
  revert nodes. induction l as [|t l IH]; intros nodes; simpl.
  - split; [by left|]. intros [?|[(t & Ht & _) _]]; [done|by apply elem_of_nil in Ht].
  - rewrite IH. destruct t as [id data is_page children]. simpl.
    assert (is_Some (scanOne st nodes (Canvas.scene id data is_page children) !! k)
            ↔ is_Some (nodes !! k)
              ∨ (id = k ∧ is_page = false ∧ Sandbox.getNodeTags st k ≠ [])) as ->.
    { simpl. destruct is_page; simpl.
      - split; [by left|]. intros [?|(_ & ? & _)]; done.
      - case_bool_decide as Hlen.
        + destruct (decide (id = k)) as [->|Hne].
          * rewrite lookup_insert_eq. split; [|by eexists]. intros _. right.
            split_and!; [done|done|]. intros Hnil. rewrite Hnil in Hlen. simpl in Hlen. lia.
          * rewrite lookup_insert_ne by done. split; [by left|].
            intros [?|(? & _)]; done.
        + split; [by left|]. intros [?|(-> & _ & Hne)]; [done|].
          destruct (Sandbox.getNodeTags st k); [done|]. simpl in Hlen. lia. }
    split.
    + intros [[?|(-> & Hp & Htags)]|[(t & Ht & Hid & Hp) Htags]].
      * by left.
      * right. split; [|done]. eexists. split; [by left|done].
      * right. split; [|done]. exists t. split; [by right|done].
    + intros [?|[(t & Ht & Hid & Hp) Htags]]; [by left; left|].
      apply elem_of_cons in Ht as [->|Ht].
      * left. right. simpl in Hid, Hp. done.
      * right. split; [|done]. by exists t.
Qed.
End Scans.

(** [getAllTaggedNodes] lists exactly the ids of the nodes of the page tree
    that are not pages and whose stored tag list is not empty, each with its
    id and its stored tags. *)
Theorem bootstrap_lists_tagged_nodes (st : Sandbox.Figma)
    (pageChildren : list Canvas.SceneTree) (k : NodeId) :
  (is_Some (Canvas.getAllTaggedNodes st pageChildren !! k)
   ↔ (∃ t, t ∈ Canvas.all_nodes pageChildren ∧ Canvas.tree_id t = k
           ∧ Canvas.tree_is_page t = false)
     ∧ Sandbox.getNodeTags st k ≠ [])
  ∧ ∀ nd, Canvas.getAllTaggedNodes st pageChildren !! k = Some nd →
      Sandbox.nd_id nd = k ∧ Sandbox.nd_tags nd = Sandbox.getNodeTags st k.
Proof.
  rewrite getAllTaggedNodes_fold. split.
  - rewrite scanOne_fold_is_Some, lookup_empty. split.
    + intros [[? Hnone]|?]; [discriminate Hnone|done].
    + by right.
  - intros nd [Hk|(? & ? & _)]%scanOne_fold_Some; [|done].
    by rewrite lookup_empty in Hk.
Qed.

Lemma bootstrap_lists_tagged_nodes_witness :
  Sandbox.nd_id (Sandbox.getNodeData one_sticky_sandbox "1"
                   (Sandbox.mkSceneNode "n" Sandbox.STICKY)) = "1"
  ∧ Sandbox.nd_tags (Sandbox.getNodeData one_sticky_sandbox "1"
                       (Sandbox.mkSceneNode "n" Sandbox.STICKY))
    = Sandbox.getNodeTags one_sticky_sandbox "1".
Proof.
  apply (proj2 (bootstrap_lists_tagged_nodes one_sticky_sandbox
                  [Canvas.scene "1" (Sandbox.mkSceneNode "n" Sandbox.STICKY) false []] "1")).
  vm_compute. reflexivity.
Defined.

Lemma findNodesWithTag_fold st tagName (t : Canvas.SceneTree) found :
  Canvas.findNodesWithTag st tagName t found
  = foldl (findOne st tagName) found (Canvas.subtree t).
Proof.
  revert found. induction t as [id data is_page children IH] using SceneTree_ind'.
  intros found. rewrite subtree_unfold. simpl.
  by rewrite (children_fold (Canvas.findNodesWithTag st tagName) (findOne st tagName)).
Qed.

Lemma findOne_fold st tagName (l : list Canvas.SceneTree) found :
  foldl (findOne st tagName) found l
  = found ++ (Canvas.tree_id <$>
                filter (λ t, Canvas.tree_is_page t = false
                             ∧ tagName ∈ Sandbox.getNodeTags st (Canvas.tree_id t)) l).
Proof.
  revert found. induction l as [|t l IH]; intros found; simpl.
  - by rewrite app_nil_r.
  - rewrite IH. destruct t as [id data is_page children]. simpl.
    destruct is_page; simpl.
    + rewrite filter_cons_False; [done|]. simpl. by intros [? _].
    + unfold JS.includes. case_bool_decide as Hin.
      * rewrite filter_cons_True by done. simpl. by rewrite <- app_assoc.
      * rewrite filter_cons_False; [done|]. simpl. tauto.
Qed.

(** [handleSelectNodesWithTag] selects the nodes of the page tree that
    are not pages and carry the tag, each as often as it stands in the tree,
    parents before children, in document order. *)
Theorem select_finds_nodes_in_document_order (st : Sandbox.Figma) (tagName : TagName)
    (pageChildren : list Canvas.SceneTree) :
  Canvas.handleSelectNodesWithTag st tagName pageChildren
  = Canvas.tree_id <$>
      filter (λ t, Canvas.tree_is_page t = false
                   ∧ tagName ∈ Sandbox.getNodeTags st (Canvas.tree_id t))
             (Canvas.all_nodes pageChildren).
Proof.
  unfold Canvas.handleSelectNodesWithTag, Canvas.all_nodes.
  rewrite (children_fold (Canvas.findNodesWithTag st tagName) (findOne st tagName)).
  - by rewrite findOne_fold.
  - apply Forall_forall. intros t _ found. apply findNodesWithTag_fold.
Qed.

(** ** The export of the MVP *)

Lemma findAll_everything (st : Mvp.Figma) : Mvp.findAll (λ _, true) st = Mvp.page st.
Proof.
  unfold Mvp.findAll. induction (Mvp.page st) as [|n l IH]; [done|].
  rewrite filter_cons_True by done. by rewrite IH.
Qed.

Lemma exportCSV_fold (st : Mvp.Figma) (l : list NodeId) (rows : list string) :
  foldl (λ rows n,
           let t := Mvp.getNodeTags st n in
           if bool_decide (length t = 0) then rows
           else
             let name := JS.double_quotes (default EmptyString (Mvp.nodeName st !! n)) in
             rows ++ [n +:+ "," +:+ JS.quote +:+ name +:+ JS.quote +:+ ","
                        +:+ JS.quote +:+ JS.join "|" t +:+ JS.quote])
        rows l
  = rows ++ ((λ n, n +:+ "," +:+ JS.quote
                   +:+ JS.double_quotes (default EmptyString (Mvp.nodeName st !! n))
                   +:+ JS.quote +:+ "," +:+ JS.quote
                   +:+ JS.join "|" (Mvp.getNodeTags st n) +:+ JS.quote)
             <$> filter (λ n, Mvp.getNodeTags st n ≠ []) l).
Proof.
  revert rows. induction l as [|n l IH]; intros rows; simpl.
  - by rewrite app_nil_r.
  - case_bool_decide as Hlen.
    + apply length_zero_iff_nil in Hlen.
      rewrite filter_cons_False by (by intros ?). apply IH.
    + rewrite filter_cons_True by (by intros Hnil; rewrite Hnil in Hlen).
      rewrite IH. simpl. by rewrite <- app_assoc.
Qed.

(** [exportCSV] is the header followed by one row for every node of the page
    that has a tag, in the order of the page; the nodes without tags are left
    out, and a node without a name gets an empty name field. *)
Theorem exportCSV_rows (st : Mvp.Figma) :
  Mvp.exportCSV st
  = JS.join JS.newline
      ("nodeId,nodeName,tags"
       :: ((λ n, n +:+ "," +:+ JS.quote
                 +:+ JS.double_quotes (default EmptyString (Mvp.nodeName st !! n))
                 +:+ JS.quote +:+ "," +:+ JS.quote
                 +:+ JS.join "|" (Mvp.getNodeTags st n) +:+ JS.quote)
           <$> filter (λ n, Mvp.getNodeTags st n ≠ []) (Mvp.page st))).
Proof.
  unfold Mvp.exportCSV. rewrite findAll_everything. f_equal.
  apply (exportCSV_fold st (Mvp.page st) ["nodeId,nodeName,tags"]).
Qed.

Lemma rename_to_itself_keeps_tags_witness :
  Mvp.pluginData (Mvp.renameTagEverywhere "a" "a" scenario_B).1 = Mvp.pluginData scenario_B.
Proof.
  apply (rename_to_itself_keeps_tags "a" scenario_B).
  intros n tags. destruct (decide (n = "1")) as [->|Hne].
  - vm_compute. intros [= <-]. apply (@bool_decide_unpack _ (normalized_dec _)).
    vm_compute. exact I.
  - unfold scenario_B. simpl. rewrite lookup_singleton_ne by done. discriminate.
Defined.

Lemma mergeTags_source_wins_witness :
  Mvp.registry (Mvp.mergeTags "a" ["b"] red_and_blue).1 !! "a"
  = Some (spread (default no_meta (Mvp.registry red_and_blue !! "a"))
                 (mkTagMeta (Some "blue") (Some "x")))
  ∧ Mvp.registry (Mvp.mergeTags "__proto__" ["b"] red_and_blue).1 !! "__proto__" = None.
Proof.
  split.
  - apply (proj1 (mergeTags_source_wins "a" "b" (mkTagMeta (Some "blue") (Some "x"))
                    red_and_blue ltac:(discriminate) ltac:(reflexivity))).
    left. discriminate.
  - apply (proj2 (mergeTags_source_wins "__proto__" "b" (mkTagMeta (Some "blue") (Some "x"))
                    red_and_blue ltac:(discriminate) ltac:(reflexivity)));
      reflexivity.
Defined.
